(** * Contact form validation (js/form.js)

    A shallow embedding of the validation and submission logic of
    [src/js/form.js]: the static rule table [VALIDATION_RULES], the
    functions [validateField] and [validateForm], and the control flow of
    [handleSubmit], together with the JavaScript built-ins they rely on
    ([String.prototype.trim], [RegExp.prototype.test], property lookup on an
    object literal, [Object.entries], template literals).  It goes on with
    the functions of that file that write to the page (error marks, focus,
    banner), the theme toggle and the typing effect of [src/js/main.js]. *)

From Stdlib Require Import DecimalString.
From stdpp Require Import gmap strings list fin_maps.

(** ** JavaScript strings *)

(** A JavaScript string is a finite sequence of UTF-16 code units; [length]
    counts code units.  Code units are numbers below 65536; nothing below
    depends on the bound. *)
Abbreviation code_unit := N (only parsing).
Abbreviation jsstring := (list N) (only parsing).

(** String literals of the source are ASCII; [js] reads one. *)
Definition js (s : string) : jsstring :=
  map Ascii.N_of_ascii (String.list_ascii_of_string s).

(** The characters of the ECMAScript productions WhiteSpace and
    LineTerminator.  Both [String.prototype.trim] and the regular
    expression class escape [\s] are defined by this one set. *)
Definition is_space (c : code_unit) : bool :=
  ((9 <=? c) && (c <=? 13)            (* TAB LF VT FF CR *)
   || (c =? 32)                       (* SP *)
   || (c =? 160)                      (* NBSP *)
   || (c =? 5760)                     (* U+1680 *)
   || ((8192 <=? c) && (c <=? 8202))  (* U+2000 .. U+200A *)
   || (c =? 8232) || (c =? 8233)      (* LS PS *)
   || (c =? 8239) || (c =? 8287)      (* U+202F U+205F *)
   || (c =? 12288)                    (* U+3000 *)
   || (c =? 65279))%N.                (* U+FEFF *)

(** [s.trimStart()] *)
Fixpoint trimStart (s : jsstring) : jsstring :=
  match s with
  | c :: s' => if is_space c then trimStart s' else s
  | [] => []
  end.

(** [s.trimEnd()] *)
Definition trimEnd (s : jsstring) : jsstring :=
  rev (trimStart (rev s)).

(** [s.trim()]: leading and trailing white space removed. *)
Definition trim (s : jsstring) : jsstring :=
  trimEnd (trimStart s).

(** Truthiness of a string: only the empty string is falsy. *)
Definition str_truthy (s : jsstring) : bool :=
  match s with [] => false | _ :: _ => true end.

(** Truthiness of an optional number property: [undefined] and [0] are
    falsy. *)
Definition num_truthy (o : option nat) : bool :=
  match o with Some (S _) => true | _ => false end.

(** [`${n}`] for a non-negative integer [n]: its decimal numeral. *)
Definition Number_toString (n : nat) : jsstring :=
  js (NilEmpty.string_of_uint (Nat.to_uint n)).

(** ** Regular expressions *)

(** The fragment of the pattern syntax used by the source: a sequence of
    terms, each an assertion, a one-character atom or a greedy [+] applied
    to a one-character atom. *)
Inductive ClassAtom :=
  | ClassSpace                    (* \s *)
  | ClassChar (c : code_unit).

Inductive Atom :=
  | Literal (c : code_unit)                (* a pattern character, or \. *)
  | NegatedClass (items : list ClassAtom). (* [^...] *)

Inductive Term :=
  | AssertBegin          (* ^ *)
  | AssertEnd            (* $ *)
  | One (a : Atom)
  | OneOrMore (a : Atom). (* a+ *)

Abbreviation RegExp := (list Term) (only parsing).

Definition class_atom_matches (i : ClassAtom) (c : code_unit) : bool :=
  match i with
  | ClassSpace => is_space c
  | ClassChar d => (c =? d)%N
  end.

Definition atom_matches (a : Atom) (c : code_unit) : bool :=
  match a with
  | Literal d => (c =? d)%N
  | NegatedClass items => negb (existsb (fun i => class_atom_matches i c) items)
  end.

(** The greedy loop of [a+] with continuation [k]: after one more character
    of [a], first try to take yet another one, then fall back to [k].  The
    alternatives are tried one after the other, the second only when the
    first fails. *)
Fixpoint plus_loop (a : Atom) (k : nat → jsstring → bool)
    (i : nat) (s : jsstring) : bool :=
  match s with
  | c :: s' =>
      if atom_matches a c then
        if plus_loop a k (S i) s' then true else k (S i) s'
      else false
  | [] => false
  end.

(** Backtracking matcher: does the term sequence match at index [i], where
    [s] is the input from [i] on?  An empty sequence succeeds wherever it
    stands. *)
Fixpoint match_here (ts : RegExp) (i : nat) (s : jsstring) : bool :=
  match ts with
  | [] => true
  | AssertBegin :: ts' => if i =? 0 then match_here ts' i s else false
  | AssertEnd :: ts' =>
      match s with [] => match_here ts' i s | _ :: _ => false end
  | One a :: ts' =>
      match s with
      | c :: s' => if atom_matches a c then match_here ts' (S i) s' else false
      | [] => false
      end
  | OneOrMore a :: ts' => plus_loop a (match_here ts') i s
  end.

(** The search of [exec] for a pattern without flags: try every start index
    from [i] on, left to right. *)
Fixpoint search_from (ts : RegExp) (i : nat) (s : jsstring) : bool :=
  if match_here ts i s then true
  else match s with
       | _ :: s' => search_from ts (S i) s'
       | [] => false
       end.

(** [re.test(s)] for a pattern without the [g] or [y] flag. *)
Definition RegExp_test (re : RegExp) (s : jsstring) : bool :=
  search_from re 0 s.

(** Declarative reading of a term sequence: [accepts ts i s] says that the
    sequence can match at index [i] on remaining input [s], for some choice
    of how many characters each [+] takes. *)
Fixpoint accepts (ts : RegExp) (i : nat) (s : jsstring) : Prop :=
  match ts with
  | [] => True
  | AssertBegin :: ts' => i = 0 ∧ accepts ts' i s
  | AssertEnd :: ts' => s = [] ∧ accepts ts' i s
  | One a :: ts' =>
      ∃ c s', s = c :: s' ∧ atom_matches a c = true ∧ accepts ts' (S i) s'
  | OneOrMore a :: ts' =>
      ∃ u s', u ≠ [] ∧ Forall (fun c => atom_matches a c = true) u
              ∧ s = u ++ s' ∧ accepts ts' (i + length u) s'
  end.

(** A string matches a pattern when the pattern is accepted at some index. *)
Definition Matches (re : RegExp) (s : jsstring) : Prop :=
  ∃ pre suf, s = pre ++ suf ∧ accepts re (length pre) suf.

(** ** The rule table *)

(** One entry of [VALIDATION_RULES].  [required] is the truthiness of the
    property; an absent [minLength], [maxLength] or [pattern] is [None]. *)
Record FieldRule := {
  required : bool;
  minLength : option nat;
  maxLength : option nat;
  pattern : option (list Term);
  message : jsstring
}.

(** [[^\s@]] *)
Definition not_space_or_at : Atom :=
  NegatedClass [ClassSpace; ClassChar 64].

(** [/^[^\s@]+@[^\s@]+\.[^\s@]+$/] *)
Definition EMAIL_PATTERN : RegExp :=
  [ AssertBegin;
    OneOrMore not_space_or_at; One (Literal 64);
    OneOrMore not_space_or_at; One (Literal 46);
    OneOrMore not_space_or_at;
    AssertEnd ].

Definition name_rule : FieldRule := {|
  required := true;
  minLength := Some 2;
  maxLength := Some 100;
  pattern := None;
  message := js "Please enter your name (at least 2 characters)"
|}.

Definition email_rule : FieldRule := {|
  required := true;
  minLength := None;
  maxLength := None;
  pattern := Some EMAIL_PATTERN;
  message := js "Please enter a valid email address"
|}.

Definition message_rule : FieldRule := {|
  required := true;
  minLength := Some 10;
  maxLength := Some 1000;
  pattern := None;
  message := js "Please enter a message (at least 10 characters)"
|}.

(** The own properties of the object literal. *)
Definition VALIDATION_RULES : gmap jsstring FieldRule :=
  list_to_map
    [ (js "name", name_rule);
      (js "email", email_rule);
      (js "message", message_rule) ].

(** The object literal inherits from [Object.prototype], so
    [VALIDATION_RULES[name]] is also defined (and truthy) for these names. *)
Definition Object_prototype_names : list jsstring :=
  map js
    [ "constructor"; "hasOwnProperty"; "isPrototypeOf";
      "propertyIsEnumerable"; "toLocaleString"; "toString"; "valueOf";
      "__proto__"; "__defineGetter__"; "__defineSetter__";
      "__lookupGetter__"; "__lookupSetter__" ]%string.

(** What the reads [.required], [.minLength], [.maxLength] and [.pattern]
    give on a member of [Object.prototype]: all of them [undefined].  The
    [message] of such a value is never read. *)
Definition inherited_member : FieldRule := {|
  required := false;
  minLength := None;
  maxLength := None;
  pattern := None;
  message := []
|}.

(** [VALIDATION_RULES[name]]: own property first, then the prototype;
    [None] is [undefined]. *)
Definition rules_for (name : jsstring) : option FieldRule :=
  match VALIDATION_RULES !! name with
  | Some rules => Some rules
  | None =>
      if bool_decide (name ∈ Object_prototype_names)
      then Some inherited_member
      else None
  end.

(** ** validateField *)

Inductive ValidationResult :=
  | Valid                          (* { valid: true } *)
  | Invalid (msg : jsstring).      (* { valid: false, message: msg } *)

Definition valid (r : ValidationResult) : bool :=
  match r with Valid => true | Invalid _ => false end.

(** The number behind an optional number property that was found truthy. *)
Definition num_value (o : option nat) : nat := default 0 o.

(** [`Maximum ${n} characters allowed`] *)
Definition maximum_message (n : nat) : jsstring :=
  js "Maximum " ++ Number_toString n ++ js " characters allowed".

Definition validateField (name value : jsstring) : ValidationResult :=
  match rules_for name with
  | None => Valid
  | Some rules =>
      let trimmedValue := trim value in
      (* Required check *)
      if required rules && negb (str_truthy trimmedValue) then
        Invalid (message rules)
      (* Min length check *)
      else if num_truthy (minLength rules)
              && (length trimmedValue <? num_value (minLength rules)) then
        Invalid (message rules)
      (* Max length check *)
      else if num_truthy (maxLength rules)
              && (num_value (maxLength rules) <? length trimmedValue) then
        Invalid (maximum_message (num_value (maxLength rules)))
      (* Pattern check (for email) *)
      else if match pattern rules with
              | Some re => negb (RegExp_test re trimmedValue)
              | None => false
              end then
        Invalid (message rules)
      else Valid
  end.

(** ** validateForm *)

(** [Object.entries(o)] and [Object.keys(o)] of an object used as a map. *)
Definition Object_entries {V} (o : gmap jsstring V) : list (jsstring * V) :=
  map_to_list o.

Definition Object_keys {V} (o : gmap jsstring V) : list jsstring :=
  (Object_entries o).*1.

(** One iteration of the loop of [validateForm]. *)
Definition validateForm_step (errors : gmap jsstring jsstring)
    (entry : jsstring * jsstring) : gmap jsstring jsstring :=
  let '(name, value) := entry in
  match validateField name value with
  | Invalid msg => <[name := msg]> errors
  | Valid => errors
  end.

(** The loop of [validateForm] over a list of entries. *)
Definition validateForm_loop (entries : list (jsstring * jsstring))
    (errors : gmap jsstring jsstring) : gmap jsstring jsstring :=
  foldl validateForm_step errors entries.

Definition validateForm (formData : gmap jsstring jsstring)
    : gmap jsstring jsstring :=
  validateForm_loop (Object_entries formData) ∅.

(** ** handleSubmit *)

(** What [handleSubmit] reads of the page: [new FormData(form)] as a map
    from a control's name to its value, and whether a [.form-message]
    banner is present. *)
Record Form := {
  form_data : gmap jsstring jsstring;
  existingMessage : bool
}.

(** The calls [handleSubmit] makes on the page and on the mock API, in
    order.  The page is taken to have the structure the script expects (the
    event target is the contact form and it holds its [.form-submit]
    control), so that every call on the page returns. *)
Inductive Effect :=
  | PreventDefault
  | ClearAllErrors
  | RemoveMessage
  | DisplayErrors (errors : gmap jsstring jsstring)
  | SetLoadingState (isLoading : bool)
  | SimulateSubmission (formData : gmap jsstring jsstring)
  | ShowFormMessage (type msg : jsstring)
  | FormReset.

(** How the promise of [simulateSubmission] settles. *)
Inductive Settled :=
  | Resolved (msg : jsstring)
  | Rejected (msg : jsstring).

(** [simulateSubmission]; [lucky] is the outcome of [Math.random() > 0.1]
    when the timer fires. *)
Definition simulateSubmission (lucky : bool) : Settled :=
  if lucky
  then Resolved (js "Thank you for your message! We'll get back to you soon.")
  else Rejected (js "Submission failed. Please try again later.").

(** [x || ''] for [x] a string or [null]. *)
Definition or_empty (x : option jsstring) : jsstring :=
  match x with
  | Some s => if str_truthy s then s else []
  | None => []
  end.

(** The object literal [formData] built by [handleSubmit]. *)
Definition snapshot (form : Form) : gmap jsstring jsstring :=
  list_to_map
    [ (js "name", or_empty (form_data form !! js "name"));
      (js "email", or_empty (form_data form !! js "email"));
      (js "message", or_empty (form_data form !! js "message")) ].

Definition handleSubmit (form : Form) (lucky : bool) : list Effect :=
  [PreventDefault; ClearAllErrors]
  ++ (if existingMessage form then [RemoveMessage] else [])
  ++ let formData := snapshot form in
     let errors := validateForm formData in
     if 0 <? length (Object_keys errors) then
       [DisplayErrors errors]
     else
       [SetLoadingState true; SimulateSubmission formData]
       ++ match simulateSubmission lucky with
          | Resolved msg => [ShowFormMessage (js "success") msg; FormReset]
          | Rejected msg => [ShowFormMessage (js "error") msg]
          end
       ++ [SetLoadingState false].

(** ** Definitions used to state the properties *)

(** A character [[^\s@]] can match. *)
Definition plain (c : code_unit) : Prop :=
  is_space c = false ∧ c ≠ 64%N.

(** The four checks of a field rule, in the order they are applied. *)
Inductive Check :=
  | RequiredPresence
  | MinimumLength
  | MaximumLength
  | PatternMatch.

Definition check_order : list Check :=
  [RequiredPresence; MinimumLength; MaximumLength; PatternMatch].

(** Does check [c] of [rules] fail on the trimmed value [t]? *)
Definition check_fails (rules : FieldRule) (t : jsstring) (c : Check) : bool :=
  match c with
  | RequiredPresence => required rules && bool_decide (t = [])
  | MinimumLength =>
      match minLength rules with Some m => length t <? m | None => false end
  | MaximumLength =>
      match maxLength rules with Some m => m <? length t | None => false end
  | PatternMatch =>
      match pattern rules with
      | Some re => negb (RegExp_test re t)
      | None => false
      end
  end.

(** The first check of [check_order] that fails, if any. *)
Definition first_failing (rules : FieldRule) (t : jsstring) : option Check :=
  find (check_fails rules t) check_order.

(** The result as the specification words it: the first failing check
    reports the rule's [message]. *)
Definition first_failing_rule_message (rules : FieldRule) (t : jsstring)
    : ValidationResult :=
  match first_failing rules t with
  | Some _ => Invalid (message rules)
  | None => Valid
  end.

(** The same with the text of the maximum-length check. *)
Definition first_failing_message (rules : FieldRule) (t : jsstring)
    : ValidationResult :=
  match first_failing rules t with
  | Some MaximumLength => Invalid (maximum_message (num_value (maxLength rules)))
  | Some _ => Invalid (message rules)
  | None => Valid
  end.

(** An address of 2004 characters: 2000 times [a], then [@b.c]. *)
Definition long_email : jsstring :=
  repeat 97%N 2000 ++ js "@b.c".

(** The snapshot [{name: "A", email: "bad", message: "short"}]. *)
Definition snapshot_three_errors : gmap jsstring jsstring :=
  list_to_map
    [ (js "name", js "A"); (js "email", js "bad"); (js "message", js "short") ].

(** A form whose name input holds [" Al "], blanks included. *)
Definition form_padded_name : Form := {|
  form_data :=
    list_to_map
      [ (js "name", js " Al ");
        (js "email", js "al@example.org");
        (js "message", js "Hello from the landing page") ];
  existingMessage := false
|}.

(** A trimmed value within the length bounds of a rule. *)
Definition within_bounds (rules : FieldRule) (t : jsstring) : Prop :=
  (∀ m, minLength rules = Some m → m ≤ length t)
  ∧ (∀ m, maxLength rules = Some m → length t ≤ m).

(** A form filled in correctly, with a banner left from an earlier
    attempt. *)
Definition form_filled : Form := {|
  form_data :=
    list_to_map
      [ (js "name", js "Alice");
        (js "email", js "a@b.com");
        (js "message", js "This is a sufficiently long message.") ];
  existingMessage := true
|}.

(** A form whose message input is missing. *)
Definition form_no_message : Form := {|
  form_data :=
    list_to_map [ (js "name", js "Alice"); (js "email", js "a@b.com") ];
  existingMessage := false
|}.

(** ** The page: error marks on fields *)

(** What the script reads and writes of an element: its class list, its
    attributes, its text, and, for a form control, its current value. *)
Record Element := {
  classList : gset (list N);
  attributes : gmap (list N) (list N);
  textContent : list N;
  value : list N
}.

(** The page: the element behind each node, and the element that has
    input focus, if any. *)
Record Page := {
  element : nat → Element;
  activeElement : option nat
}.

(** The queries the script runs on the tree.  Their answers depend only on
    the shape of the tree and on class names and [name] attributes the
    script never changes ([form-group], [form-error], [form-input],
    [form-textarea]), so they are fixed while the script runs; an error
    slot is taken to hold text only. *)
Record Layout := {
  (* field.closest('.form-group') *)
  closest_form_group : nat → option nat;
  (* formGroup.querySelector('.form-error') *)
  form_error_in : nat → option nat;
  (* form.querySelectorAll('.form-input, .form-textarea'), in document
     order *)
  form_fields : list nat;
  (* form.querySelector(`[name="${name}"]`), for a name that reads as a
     quoted string in the selector *)
  field_by_name : list N → option nat
}.

Definition classList_add (c : list N) (e : Element) : Element := {|
  classList := {[c]} ∪ classList e;
  attributes := attributes e;
  textContent := textContent e;
  value := value e
|}.

Definition classList_remove (c : list N) (e : Element) : Element := {|
  classList := classList e ∖ {[c]};
  attributes := attributes e;
  textContent := textContent e;
  value := value e
|}.

Definition setAttribute (k v : list N) (e : Element) : Element := {|
  classList := classList e;
  attributes := <[k := v]> (attributes e);
  textContent := textContent e;
  value := value e
|}.

Definition removeAttribute (k : list N) (e : Element) : Element := {|
  classList := classList e;
  attributes := delete k (attributes e);
  textContent := textContent e;
  value := value e
|}.

Definition set_textContent (t : list N) (e : Element) : Element := {|
  classList := classList e;
  attributes := attributes e;
  textContent := t;
  value := value e
|}.

(** A property that reflects an attribute ([el.id], [el.name]): the
    attribute's value, or the empty string when the attribute is absent. *)
Definition reflected (k : list N) (e : Element) : list N :=
  default [] (attributes e !! k).

(** [x || y] on strings. *)
Definition str_or (x y : list N) : list N :=
  if str_truthy x then x else y.

(** One write to the element behind node [i]. *)
Definition update (i : nat) (f : Element → Element) (p : Page) : Page := {|
  element := fun j => if decide (j = i) then f (element p j) else element p j;
  activeElement := activeElement p
|}.

(** [el.focus()], taken to succeed. *)
Definition focus (i : nat) (p : Page) : Page := {|
  element := element p;
  activeElement := Some i
|}.

Definition showFieldError (L : Layout) (p : Page) (field : nat)
    (msg : list N) : Page :=
  match closest_form_group L field with
  | None => p
  | Some formGroup =>
      let p := update formGroup (classList_add (js "has-error")) p in
      let p := update field (classList_add (js "error")) p in
      let errorElement := form_error_in L formGroup in
      let p := match errorElement with
               | Some e => update e (set_textContent msg) p
               | None => p
               end in
      (* Set ARIA attributes for accessibility *)
      let p := update field (setAttribute (js "aria-invalid") (js "true")) p in
      match errorElement with
      | Some e =>
          let errorId :=
            str_or (reflected (js "id") (element p e))
                   (js "error-" ++ reflected (js "name") (element p field)) in
          let p := update e (setAttribute (js "id") errorId) p in
          update field (setAttribute (js "aria-describedby") errorId) p
      | None => p
      end
  end.

Definition clearFieldError (L : Layout) (p : Page) (field : nat) : Page :=
  match closest_form_group L field with
  | None => p
  | Some formGroup =>
      let p := update formGroup (classList_remove (js "has-error")) p in
      let p := update field (classList_remove (js "error")) p in
      let p := update field (removeAttribute (js "aria-invalid")) p in
      let p := update field (removeAttribute (js "aria-describedby")) p in
      match form_error_in L formGroup with
      | Some e => update e (set_textContent []) p
      | None => p
      end
  end.

Definition clearAllErrors (L : Layout) (p : Page) : Page :=
  foldl (clearFieldError L) p (form_fields L).

(** Does the element behind node [i] carry class [c]? *)
Definition has_class (p : Page) (i : nat) (c : list N) : bool :=
  bool_decide (c ∈ classList (element p i)).

(** [displayErrors(form, errors)], on the entries of [errors] in the order
    [Object.entries] lists them. *)
Definition displayErrors (L : Layout) (p : Page)
    (entries : list (list N * list N)) : Page :=
  let p :=
    foldl (fun p '(name, msg) =>
             match field_by_name L name with
             | Some field => showFieldError L p field msg
             | None => p
             end) p entries in
  (* Focus the first field with an error *)
  match find (fun i => has_class p i (js "error")) (form_fields L) with
  | Some firstErrorField => focus firstErrorField p
  | None => p
  end.

(** [handleBlur], with [field] the target of the event. *)
Definition handleBlur (L : Layout) (p : Page) (field : nat) : Page :=
  let name := reflected (js "name") (element p field) in
  let value := value (element p field) in
  match rules_for name with
  | None => p
  | Some _ =>
      match validateField name value with
      | Invalid msg => showFieldError L p field msg
      | Valid => clearFieldError L p field
      end
  end.

(** [handleInput], with [field] the target of the event. *)
Definition handleInput (L : Layout) (p : Page) (field : nat) : Page :=
  if has_class p field (js "error") then
    (* Only clear if the field now has a valid value *)
    if valid (validateField (reflected (js "name") (element p field))
                            (value (element p field)))
    then clearFieldError L p field
    else p
  else p.

(** The entries of the error object of [validateForm], in the order
    [Object.entries] lists them: the invalid fields, in the order of the
    input's entries. *)
Definition validateForm_entries (entries : list (list N * list N))
    : list (list N * list N) :=
  omap (fun '(name, value) =>
          match validateField name value with
          | Invalid msg => Some (name, msg)
          | Valid => None
          end) entries.

(** The fields [displayErrors] marks: those a name of [entries] selects
    and that stand in a form group. *)
Definition targeted (L : Layout) (entries : list (list N * list N))
    (i : nat) : bool :=
  existsb (fun '(name, _) =>
             bool_decide (field_by_name L name = Some i
                          ∧ is_Some (closest_form_group L i))) entries.

(** The [id] [showFieldError] gives the error slot [e] of [field]: the one
    it has, or [error-] followed by the field's name. *)
Definition error_id (p : Page) (field e : nat) : list N :=
  str_or (reflected (js "id") (element p e))
         (js "error-" ++ reflected (js "name") (element p field)).

(** Two pages with the same elements and the same focus. *)
Definition same_page (p q : Page) : Prop :=
  activeElement p = activeElement q ∧ ∀ i, element p i = element q i.

(** A contact form of three fields: nodes 1, 2, 3 are the inputs [name],
    [email] and [message], nodes 11, 12, 13 their form groups and nodes
    21, 22, 23 the error slots of the groups. *)
Definition contact_layout : Layout := {|
  closest_form_group i := if bool_decide (i ∈ [1; 2; 3]) then Some (10 + i) else None;
  form_error_in g := if bool_decide (g ∈ [11; 12; 13]) then Some (10 + g) else None;
  form_fields := [1; 2; 3];
  field_by_name n :=
    if bool_decide (n = js "name") then Some 1
    else if bool_decide (n = js "email") then Some 2
    else if bool_decide (n = js "message") then Some 3
    else None
|}.

Definition blank_element : Element := {|
  classList := ∅; attributes := ∅; textContent := []; value := []
|}.

Definition input_element (name value : list N) : Element := {|
  classList := {[js "form-input"]};
  attributes := {[js "name" := name]};
  textContent := [];
  value := value
|}.

(** The contact form with [A], [a@b.com] and [short] typed in. *)
Definition contact_page : Page := {|
  element i :=
    match i with
    | 1 => input_element (js "name") (js "A")
    | 2 => input_element (js "email") (js "a@b.com")
    | 3 => input_element (js "message") (js "short")
    | _ => blank_element
    end;
  activeElement := None
|}.

(** ** The banner of the form *)

(** A [.form-message] element of the form: the node [createElement] made,
    the type in its class name, and its text. *)
Record Banner := {
  banner_node : nat;
  banner_type : list N;
  banner_text : list N
}.

(** The [.form-message] elements of the form in document order, and the
    node the next [createElement] makes. *)
Record Messages := {
  banners : list Banner;
  next_node : nat
}.

(** [showFormMessage]: the first banner of the form is removed, a new one
    is appended to the form.  The second component is the node the
    auto-hide timer is armed for, for a [success] banner. *)
Definition showFormMessage (m : Messages) (type msg : list N)
    : Messages * option nat :=
  let messageElement := {|
    banner_node := next_node m;
    banner_type := type;
    banner_text := msg
  |} in
  ({| banners := drop 1 (banners m) ++ [messageElement];
      next_node := S (next_node m) |},
   if bool_decide (type = js "success") then Some (next_node m) else None).

(** The auto-hide timer fires: [messageElement.remove()] for the element
    the timer was armed for. *)
Definition hide_message (m : Messages) (node : nat) : Messages := {|
  banners := filter (fun b => banner_node b ≠ node) (banners m);
  next_node := next_node m
|}.

(** ** The theme toggle (theme script) *)

Module Theme.

Definition THEME_LIGHT : list N := js "light".
Definition THEME_DARK : list N := js "dark".

(** [getPreferredTheme]: [savedTheme] is [localStorage.getItem('theme')],
    [None] for [null]; [media] is [None] when [window.matchMedia] is
    missing, and otherwise tells whether [(prefers-color-scheme: dark)]
    matches. *)
Definition getPreferredTheme (savedTheme : option (list N))
    (media : option bool) : list N :=
  if bool_decide (savedTheme = Some THEME_LIGHT
                  ∨ savedTheme = Some THEME_DARK)
  then default [] savedTheme
  else if default false media then THEME_DARK
  else THEME_LIGHT.

(** What the script keeps of the document: the [data-theme] attribute of
    the root element, the [content] of the [theme-color] meta element
    ([None] when there is no such element), the stored preference, and the
    texts announced to screen readers. *)
Record Doc := {
  data_theme : option (list N);
  meta_content : option (list N);
  stored : option (list N);
  announced : list (list N)
}.

Definition applyTheme (theme : list N) (d : Doc) : Doc := {|
  data_theme := Some theme;
  meta_content :=
    match meta_content d with
    | Some _ =>
        Some (if bool_decide (theme = THEME_DARK)
              then js "#111827" else js "#FFFFFF")
    | None => None
    end;
  stored := stored d;
  announced := announced d
|}.

(** [saveTheme]; [writable] tells whether [localStorage.setItem] returns
    (when it throws, the exception is caught and the store is as before). *)
Definition saveTheme (writable : bool) (theme : list N) (d : Doc) : Doc :=
  if writable then
    {| data_theme := data_theme d;
       meta_content := meta_content d;
       stored := Some theme;
       announced := announced d |}
  else d.

Definition announceThemeChange (theme : list N) (d : Doc) : Doc := {|
  data_theme := data_theme d;
  meta_content := meta_content d;
  stored := stored d;
  announced := announced d ++ [js "Theme changed to " ++ theme ++ js " mode"]
|}.

Definition toggleTheme (writable : bool) (d : Doc) : Doc :=
  let currentTheme := str_or (default [] (data_theme d)) THEME_LIGHT in
  let newTheme :=
    if bool_decide (currentTheme = THEME_LIGHT) then THEME_DARK
    else THEME_LIGHT in
  announceThemeChange newTheme
    (saveTheme writable newTheme (applyTheme newTheme d)).

End Theme.

(** ** The typing effect (js/main.js) *)

Module Typing.

Definition phrases : list (list N) :=
  [ js "We build amazing web experiences.";
    js "We create beautiful interfaces.";
    js "We love clean code.";
    js "We push boundaries.";
    js "We make ideas reality." ].

Definition typingSpeed : nat := 80.
Definition deletingSpeed : nat := 50.
Definition pauseDuration : nat := 2000.

(** The variables [type] closes over. *)
Record State := {
  phraseIndex : nat;
  charIndex : Z;
  isDeleting : bool;
  isPaused : bool
}.

Definition initial : State := {|
  phraseIndex := 0; charIndex := 0; isDeleting := false; isPaused := false
|}.

(** [s.substring(start, end)]: both indices are clamped to the string and
    swapped when out of order. *)
Definition substring (s : list N) (start end_ : Z) : list N :=
  let len := Z.of_nat (length s) in
  let a := Z.min (Z.max start 0) len in
  let b := Z.min (Z.max end_ 0) len in
  take (Z.to_nat (Z.max a b) - Z.to_nat (Z.min a b))
       (drop (Z.to_nat (Z.min a b)) s).

(** [phrases[i]]; the index is always within the array. *)
Definition phrase (i : nat) : list N := default [] (phrases !! i).

(** What one call of [type] does besides updating its variables: the text
    it puts in the container, if any, and the delay of the timer it sets,
    if any. *)
Record Output := {
  shown : option (list N);
  delay : option nat
}.

(** One call of [type]; [reduced] tells whether
    [(prefers-reduced-motion: reduce)] matches at the call. *)
Definition type (reduced : bool) (st : State) : State * Output :=
  if reduced then
    (st, {| shown := Some (phrase 0); delay := None |})
  else
    let currentPhrase := phrase (phraseIndex st) in
    if isPaused st then
      ({| phraseIndex := phraseIndex st; charIndex := charIndex st;
          isDeleting := true; isPaused := false |},
       {| shown := None; delay := Some pauseDuration |})
    else if isDeleting st then
      let text := substring currentPhrase 0 (charIndex st - 1) in
      let charIndex' := (charIndex st - 1)%Z in
      let st' :=
        if (charIndex' =? 0)%Z then
          {| phraseIndex := (phraseIndex st + 1) mod length phrases;
             charIndex := charIndex';
             isDeleting := false; isPaused := false |}
        else
          {| phraseIndex := phraseIndex st; charIndex := charIndex';
             isDeleting := true; isPaused := false |} in
      (st', {| shown := Some text;
               delay := Some (if isDeleting st' then deletingSpeed
                              else typingSpeed) |})
    else
      let text := substring currentPhrase 0 (charIndex st + 1) in
      let charIndex' := (charIndex st + 1)%Z in
      let st' :=
        {| phraseIndex := phraseIndex st; charIndex := charIndex';
           isDeleting := false;
           isPaused := bool_decide (charIndex' = Z.of_nat (length currentPhrase)) |} in
      (st', {| shown := Some text; delay := Some typingSpeed |}).

(** The state after [n] timer ticks without reduced motion. *)
Definition run (n : nat) (st : State) : State :=
  Nat.iter n (fun st => (type false st).1) st.

(** What holds of the variables between calls. *)
Definition Inv (st : State) : Prop :=
  phraseIndex st < length phrases
  ∧ (isPaused st = true →
     isDeleting st = false
     ∧ charIndex st = Z.of_nat (length (phrase (phraseIndex st))))
  ∧ (isDeleting st = true →
     (1 ≤ charIndex st ≤ Z.of_nat (length (phrase (phraseIndex st))))%Z)
  ∧ (isPaused st = false → isDeleting st = false →
     (0 ≤ charIndex st < Z.of_nat (length (phrase (phraseIndex st))))%Z).

End Typing.

(** ** Sanity checks on concrete inputs *)

Example trim_example : trim (js "  a b  ") = js "a b".
Proof. reflexivity. Qed.

Example email_ok : RegExp_test EMAIL_PATTERN (js "a@b.com") = true.
Proof. reflexivity. Qed.

Example email_bad : RegExp_test EMAIL_PATTERN (js "bad") = false.
Proof. reflexivity. Qed.

Example email_two_dots : RegExp_test EMAIL_PATTERN (js "a.b@c.d.e") = true.
Proof. reflexivity. Qed.

Example email_inner_space : RegExp_test EMAIL_PATTERN (js "a @b.c") = false.
Proof. reflexivity. Qed.

Example validateForm_filled : validateForm (form_data form_filled) = ∅.
Proof. vm_compute. reflexivity. Qed.

Example handleSubmit_filled_resolved :
  handleSubmit form_filled true
  = [ PreventDefault; ClearAllErrors; RemoveMessage;
      SetLoadingState true;
      SimulateSubmission (form_data form_filled);
      ShowFormMessage (js "success")
        (js "Thank you for your message! We'll get back to you soon.");
      FormReset;
      SetLoadingState false ].
Proof. vm_compute. reflexivity. Qed.

Example handleSubmit_filled_rejected :
  handleSubmit form_filled false
  = [ PreventDefault; ClearAllErrors; RemoveMessage;
      SetLoadingState true;
      SimulateSubmission (form_data form_filled);
      ShowFormMessage (js "error")
        (js "Submission failed. Please try again later.");
      SetLoadingState false ].
Proof. vm_compute. reflexivity. Qed.

Example handleSubmit_three_errors :
  handleSubmit {| form_data := snapshot_three_errors;
                  existingMessage := false |} true
  = [ PreventDefault; ClearAllErrors;
      DisplayErrors (validateForm snapshot_three_errors) ].
Proof. vm_compute. reflexivity. Qed.

Example validateField_inherited :
  validateField (js "toString") (js "") = Valid.
Proof. reflexivity. Qed.

Example handleBlur_contact_name :
  let p := handleBlur contact_layout contact_page 1 in
  has_class p 1 (js "error") = true
  ∧ has_class p 11 (js "has-error") = true
  ∧ textContent (element p 21)
    = js "Please enter your name (at least 2 characters)"
  ∧ attributes (element p 1) !! js "aria-describedby" = Some (js "error-name").
Proof. vm_compute. by split_and!. Qed.

Example displayErrors_contact :
  activeElement
    (displayErrors contact_layout (clearAllErrors contact_layout contact_page)
       (validateForm_entries
          [ (js "name", js "A"); (js "email", js "a@b.com");
            (js "message", js "short") ]))
  = Some 1.
Proof. vm_compute. reflexivity. Qed.

Example toggleTheme_from_unset :
  Theme.toggleTheme true
    {| Theme.data_theme := None; Theme.meta_content := Some (js "#FFFFFF");
       Theme.stored := None; Theme.announced := [] |}
  = {| Theme.data_theme := Some (js "dark");
       Theme.meta_content := Some (js "#111827");
       Theme.stored := Some (js "dark");
       Theme.announced := [js "Theme changed to dark mode"] |}.
Proof. vm_compute. reflexivity. Qed.

Example type_first_call :
  Typing.type false Typing.initial
  = ({| Typing.phraseIndex := 0; Typing.charIndex := 1;
        Typing.isDeleting := false; Typing.isPaused := false |},
     {| Typing.shown := Some (js "W"); Typing.delay := Some 80 |}).
Proof. vm_compute. reflexivity. Qed.

Example type_reduced_motion :
  Typing.type true Typing.initial
  = (Typing.initial,
     {| Typing.shown := Some (js "We build amazing web experiences.");
        Typing.delay := None |}).
Proof. vm_compute. reflexivity. Qed.

Example maximum_message_100 :
  maximum_message 100 = js "Maximum 100 characters allowed".
Proof. reflexivity. Qed.

(** ** Properties of [trim] *)

Section Trim.
Implicit Types (s t : jsstring) (c : code_unit).

Lemma trimStart_head c s : is_space c = false → trimStart (c :: s) = c :: s.
Proof. intros Hc. simpl. by rewrite Hc. Qed.

(** The result of [trimStart] is empty or starts with a character that is
    not white space. *)
Lemma trimStart_cases s :
  trimStart s = []
  ∨ ∃ c s', trimStart s = c :: s' ∧ is_space c = false.
Proof.
  induction s as [|c s IH]; [by left|].
  simpl. destruct (is_space c) eqn:Hc; [done|].
  right. by exists c, s.
Qed.

Lemma trimStart_idem s : trimStart (trimStart s) = trimStart s.
Proof.
  destruct (trimStart_cases s) as [->|(c & s' & -> & Hc)]; [done|].
  by apply trimStart_head.
Qed.

Lemma trimStart_snoc s c :
  is_space c = false → trimStart (s ++ [c]) = trimStart s ++ [c].
Proof.
  intros Hc. induction s as [|d s IH]; simpl.
  - by rewrite Hc.
  - by destruct (is_space d).
Qed.

Lemma trimEnd_nil : trimEnd [] = [].
Proof. reflexivity. Qed.

Lemma trimEnd_head c s :
  is_space c = false → trimEnd (c :: s) = c :: trimEnd s.
Proof.
  intros Hc. unfold trimEnd. simpl rev at 2.
  rewrite trimStart_snoc by done.
  by rewrite rev_unit.
Qed.

Lemma trimEnd_idem s : trimEnd (trimEnd s) = trimEnd s.
Proof.
  unfold trimEnd. by rewrite rev_involutive, trimStart_idem.
Qed.

(** [trim] is idempotent. *)
Lemma trim_idem s : trim (trim s) = trim s.
Proof.
  unfold trim.
  destruct (trimStart_cases s) as [->|(c & s' & -> & Hc)]; [done|].
  rewrite (trimEnd_head c s' Hc) at 1.
  rewrite (trimStart_head _ _ Hc).
  rewrite <- (trimEnd_head c s' Hc).
  apply trimEnd_idem.
Qed.

Lemma trimStart_no_space s :
  Forall (fun c => is_space c = false) s → trimStart s = s.
Proof. intros [|c s' Hc _]; [done|]. by apply trimStart_head. Qed.

(** A string without white space is its own trim. *)
Lemma trim_no_space s :
  Forall (fun c => is_space c = false) s → trim s = s.
Proof.
  intros Hs. unfold trim, trimEnd.
  rewrite (trimStart_no_space s Hs).
  rewrite trimStart_no_space; [apply rev_involutive|].
  by apply List.Forall_rev.
Qed.

(** [trimStart] only drops white space from the front. *)
Lemma trimStart_split s :
  ∃ w, s = w ++ trimStart s ∧ Forall (fun c => is_space c = true) w.
Proof.
  induction s as [|c s (w & Hw & Hsp)]; [by exists []|].
  simpl. destruct (is_space c) eqn:Hc.
  - exists (c :: w). split; [by rewrite Hw at 1|by constructor].
  - by exists [].
Qed.

(** [trim] drops white space from both ends and nothing else. *)
Lemma trim_split s :
  ∃ w1 w2, s = w1 ++ trim s ++ w2
           ∧ Forall (fun c => is_space c = true) w1
           ∧ Forall (fun c => is_space c = true) w2.
Proof.
  destruct (trimStart_split s) as (w1 & H1 & Hw1).
  destruct (trimStart_split (rev (trimStart s))) as (w2 & H2 & Hw2).
  exists w1, (rev w2). split_and!; [|done|].
  - unfold trim, trimEnd. rewrite <- rev_app_distr, <- H2.
    by rewrite rev_involutive.
  - by apply List.Forall_rev.
Qed.

Lemma trim_length_le s : length (trim s) ≤ length s.
Proof.
  destruct (trim_split s) as (w1 & w2 & Hs & _).
  rewrite Hs at 2. rewrite !length_app. lia.
Qed.
End Trim.

(** ** The matcher computes the declarative reading *)

Section Matcher.
Implicit Types (ts : list Term) (a : Atom) (s u : jsstring) (i : nat).

Lemma if_andb (b c : bool) : (if b then c else false) = b && c.
Proof. reflexivity. Qed.

Lemma if_orb (b c : bool) : (if b then true else c) = b || c.
Proof. reflexivity. Qed.

Lemma plus_loop_spec a (k : nat → jsstring → bool)
    (P : nat → jsstring → Prop) :
  (∀ i s, k i s = true ↔ P i s) →
  ∀ s i,
    plus_loop a k i s = true
    ↔ ∃ u s', u ≠ [] ∧ Forall (fun c => atom_matches a c = true) u
              ∧ s = u ++ s' ∧ P (i + length u) s'.
Proof.
  intros Hk. induction s as [|c s IH]; intros i; simpl.
  - split; [done|].
    intros (u & s' & Hu & _ & Heq & _). by destruct u.
  - rewrite if_andb, if_orb, andb_true_iff, orb_true_iff, IH, Hk. split.
    + intros [Hc [(u & s' & Hu & Hall & -> & HP)|HP]].
      * exists (c :: u), s'. split_and!; [done|by constructor|done|].
        simpl length. by rewrite Nat.add_succ_r.
      * exists [c], s. split_and!; [done|by repeat constructor|done|].
        simpl length. by rewrite Nat.add_succ_r, Nat.add_0_r.
    + intros (u & s' & Hu & Hall & Heq & HP).
      destruct u as [|d u]; [done|]. simplify_eq/=.
      apply Forall_cons in Hall as [Hd Hall]. split; [done|].
      rewrite Nat.add_succ_r in HP. change (S (i + ?n)) with (S i + n) in HP.
      destruct u as [|e u].
      * right. simpl length in HP. by rewrite Nat.add_0_r in HP.
      * left. by exists (e :: u), s'.
Qed.

Lemma match_here_accepts ts :
  ∀ i s, match_here ts i s = true ↔ accepts ts i s.
Proof.
  induction ts as [|t ts IH]; intros i s; [done|].
  destruct t as [| |a|a]; simpl.
  - rewrite if_andb, andb_true_iff, Nat.eqb_eq, IH. done.
  - destruct s as [|c s]; [rewrite IH; tauto|].
    split; [done|]. by intros [? _].
  - destruct s as [|c s].
    + split; [done|]. by intros (? & ? & ? & _).
    + rewrite if_andb, andb_true_iff, IH. split.
      * intros [? ?]. by exists c, s.
      * intros (? & ? & ? & ? & ?). by simplify_eq.
  - by apply plus_loop_spec.
Qed.

Lemma search_from_spec ts s :
  ∀ i, search_from ts i s = true
       ↔ ∃ pre suf, s = pre ++ suf ∧ accepts ts (i + length pre) suf.
Proof.
  induction s as [|c s IH]; intros i; simpl;
    rewrite if_orb, orb_true_iff, match_here_accepts.
  - split.
    + intros [H|?]; [|done]. exists [], [].
      simpl length. by rewrite Nat.add_0_r.
    + intros (pre & suf & Heq & H). left.
      symmetry in Heq. apply app_eq_nil in Heq as [-> ->].
      simpl length in H. by rewrite Nat.add_0_r in H.
  - rewrite IH. split.
    + intros [H|(pre & suf & -> & H)].
      * exists [], (c :: s). simpl length. by rewrite Nat.add_0_r.
      * exists (c :: pre), suf. simpl length.
        by rewrite Nat.add_succ_r.
    + intros (pre & suf & Heq & H). destruct pre as [|d pre].
      * left. simpl in Heq. subst suf.
        simpl length in H. by rewrite Nat.add_0_r in H.
      * right. simpl length in H. rewrite Nat.add_succ_r in H.
        simplify_eq/=. by exists pre, suf.
Qed.

(** [test] decides [Matches]. *)
Lemma RegExp_test_Matches (re : list Term) s :
  RegExp_test re s = true ↔ Matches re s.
Proof. unfold RegExp_test, Matches. by rewrite search_from_spec. Qed.
End Matcher.

(** ** The e-mail pattern *)

Section Email.
Implicit Types (s : jsstring) (c : code_unit).

Lemma not_space_or_at_matches c :
  atom_matches not_space_or_at c = true ↔ plain c.
Proof.
  unfold plain. simpl.
  rewrite orb_false_r, negb_true_iff, orb_false_iff, N.eqb_neq. done.
Qed.

Lemma Forall_not_space_or_at s :
  Forall (fun c => atom_matches not_space_or_at c = true) s
  ↔ Forall plain s.
Proof. apply Forall_iff, not_space_or_at_matches. Qed.

(** The strings of the pattern: local part, [@], domain, [.], suffix,
    each part non-empty and free of white space and [@]. *)
Lemma Matches_EMAIL_PATTERN s :
  Matches EMAIL_PATTERN s
  ↔ ∃ l d t, s = l ++ [64%N] ++ d ++ [46%N] ++ t
             ∧ l ≠ [] ∧ d ≠ [] ∧ t ≠ []
             ∧ Forall plain l ∧ Forall plain d ∧ Forall plain t.
Proof.
  unfold Matches, EMAIL_PATTERN. simpl accepts. split.
  - intros (pre & suf & -> & Hpre &
            l & s1 & Hl & Hal & -> &
            c1 & s2 & -> & Hc1 &
            d & s3 & Hd & Had & -> &
            c2 & s4 & -> & Hc2 &
            t & s5 & Ht & Hat & -> & -> & _).
    apply length_zero_iff_nil in Hpre as ->.
    apply N.eqb_eq in Hc1 as ->. apply N.eqb_eq in Hc2 as ->.
    exists l, d, t. rewrite app_nil_r, <- !Forall_not_space_or_at. done.
  - intros (l & d & t & -> & Hl & Hd & Ht & Hal & Had & Hat).
    rewrite <- Forall_not_space_or_at in Hal, Had, Hat.
    exists [], (l ++ [64%N] ++ d ++ [46%N] ++ t).
    do 2 (split; [done|]).
    exists l, ([64%N] ++ d ++ [46%N] ++ t). do 3 (split; [done|]).
    exists 64%N, (d ++ [46%N] ++ t). do 2 (split; [done|]).
    exists d, ([46%N] ++ t). do 3 (split; [done|]).
    exists 46%N, t. do 2 (split; [done|]).
    exists t, []. by rewrite app_nil_r.
Qed.

Lemma Matches_EMAIL_PATTERN_nonempty s :
  Matches EMAIL_PATTERN s → s ≠ [].
Proof.
  rewrite Matches_EMAIL_PATTERN.
  intros (l & d & t & -> & Hl & _). by destruct l.
Qed.

Lemma Matches_EMAIL_PATTERN_no_space s :
  Matches EMAIL_PATTERN s → Forall (fun c => is_space c = false) s.
Proof.
  rewrite Matches_EMAIL_PATTERN.
  intros (l & d & t & -> & _ & _ & _ & Hal & Had & Hat).
  assert (∀ u, Forall plain u → Forall (fun c => is_space c = false) u)
    as Hplain
    by (intros u Hu; eapply Forall_impl; [exact Hu|]; by intros c [? _]).
  rewrite !Forall_app. split_and!; auto; by repeat constructor.
Qed.

(** A string that matches the pattern has nothing to trim. *)
Lemma Matches_EMAIL_PATTERN_trim s :
  Matches EMAIL_PATTERN s → trim s = s.
Proof. intros H. by apply trim_no_space, Matches_EMAIL_PATTERN_no_space. Qed.
End Email.

(** ** Lookups in the rule table *)

Lemma VALIDATION_RULES_lookup_Some name rules :
  VALIDATION_RULES !! name = Some rules
  ↔ (name = js "name" ∧ rules = name_rule)
    ∨ (name = js "email" ∧ rules = email_rule)
    ∨ (name = js "message" ∧ rules = message_rule).
Proof.
  unfold VALIDATION_RULES. simpl list_to_map.
  rewrite !lookup_insert_Some, lookup_empty.
  split.
  - intros [[<- <-]|[_ [[<- <-]|[_ [[<- <-]|[_ ?]]]]]]; auto. done.
  - intros [[-> ->]|[[-> ->]|[-> ->]]].
    + by left.
    + right. split; [done|]. by left.
    + right. split; [done|]. right. split; [done|]. by left.
Qed.

Lemma VALIDATION_RULES_lookup_None name :
  VALIDATION_RULES !! name = None
  ↔ name ≠ js "name" ∧ name ≠ js "email" ∧ name ≠ js "message".
Proof.
  unfold VALIDATION_RULES. simpl list_to_map.
  rewrite !lookup_insert_None, lookup_empty. intuition congruence.
Qed.

Lemma rules_for_own name rules :
  VALIDATION_RULES !! name = Some rules → rules_for name = Some rules.
Proof. unfold rules_for. by intros ->. Qed.

Lemma rules_for_not_own name rules :
  VALIDATION_RULES !! name = None →
  rules_for name = Some rules → rules = inherited_member.
Proof.
  unfold rules_for. intros ->. case_bool_decide; congruence.
Qed.

Lemma str_truthy_false (s : jsstring) : str_truthy s = false ↔ s = [].
Proof. by destruct s. Qed.

Lemma str_truthy_true_length (s : jsstring) :
  str_truthy s = true ↔ 0 < length s.
Proof. destruct s; simpl; split; (done || lia). Qed.

(** ** Properties of validateField *)

Lemma negb_str_truthy (t : jsstring) :
  negb (str_truthy t) = bool_decide (t = []).
Proof. by destruct t. Qed.

(** The cascade of [validateField] reports the first failing check of
    [check_order], for any rule object whose length bounds are not [0]
    (a bound of [0] is falsy, and its check is skipped). *)
Lemma validateField_first_failing name rules value :
  rules_for name = Some rules →
  minLength rules ≠ Some 0 →
  maxLength rules ≠ Some 0 →
  validateField name value = first_failing_message rules (trim value).
Proof.
  intros Hrules Hmin Hmax.
  unfold validateField, first_failing_message, first_failing, check_order.
  rewrite Hrules. cbv zeta. rewrite negb_str_truthy.
  destruct rules as [req [[|m]|] [[|M]|] pat msg]; try done;
    cbn [find check_fails required minLength maxLength pattern message
         num_truthy num_value default andb];
    unfold id; rewrite ?andb_false_r;
    repeat (case_match; try congruence).
Qed.

(** C1, as amended: for every field name with a rule in the static rule
    set and every string value, [validateField] applies the checks in the
    order required-presence, minimum-length, maximum-length, pattern to the
    trimmed value and reports the first one that fails: with the rule's
    [message] for required-presence, minimum-length and pattern, with
    "Maximum N characters allowed" (N the rule's maximum length) for
    maximum-length; the result is valid if no check fails. *)
Theorem validateField_checks_in_order name rules value :
  VALIDATION_RULES !! name = Some rules →
  validateField name value = first_failing_message rules (trim value).
Proof.
  intros Hown.
  apply validateField_first_failing; [by apply rules_for_own| |];
    apply VALIDATION_RULES_lookup_Some in Hown
      as [[_ ->]|[[_ ->]|[_ ->]]]; done.
Qed.

Lemma validateField_checks_in_order_witness :
  VALIDATION_RULES !! js "email" = Some email_rule
  ∧ validateField (js "email") (js " bad ")
    = first_failing_message email_rule (trim (js " bad ")).
Proof.
  split; [reflexivity|].
  apply (validateField_checks_in_order (js "email") email_rule (js " bad ")).
  reflexivity.
Defined.

(** C1, as stated, fails on a name of 101 characters: the first failing
    check is maximum-length, and the message returned is not the rule's
    [message]. *)
Lemma validateField_maximum_message_differs :
  VALIDATION_RULES !! js "name" = Some name_rule
  ∧ first_failing name_rule (trim (repeat 97%N 101)) = Some MaximumLength
  ∧ first_failing_rule_message name_rule (trim (repeat 97%N 101))
    = Invalid (js "Please enter your name (at least 2 characters)")
  ∧ validateField (js "name") (repeat 97%N 101)
    = Invalid (js "Maximum 100 characters allowed")
  ∧ validateField (js "name") (repeat 97%N 101)
    ≠ first_failing_rule_message name_rule (trim (repeat 97%N 101)).
Proof. split_and!; [reflexivity..|]. vm_compute. discriminate. Qed.

(** On the email field a trimmed value that matches the pattern passes
    every check. *)
Lemma validateField_email_Matches value :
  Matches EMAIL_PATTERN (trim value) →
  validateField (js "email") value = Valid.
Proof.
  intros Hm.
  rewrite (validateField_first_failing _ email_rule) by done.
  unfold first_failing_message, first_failing, check_order.
  cbn [find check_fails required minLength maxLength pattern email_rule andb].
  rewrite bool_decide_eq_false_2 by by apply Matches_EMAIL_PATTERN_nonempty.
  apply RegExp_test_Matches in Hm. by rewrite Hm.
Qed.

(** On a field with length bounds only, a trimmed value within the bounds
    passes every check. *)
Lemma validateField_lengths_only name rules lo hi value :
  rules_for name = Some rules →
  required rules = true →
  minLength rules = Some (S lo) →
  maxLength rules = Some (S hi) →
  pattern rules = None →
  S lo ≤ length (trim value) ≤ S hi →
  validateField name value = Valid.
Proof.
  intros Hrules Hreq Hmin Hmax Hpat [Hlo Hhi].
  rewrite (validateField_first_failing _ rules) by congruence.
  unfold first_failing_message, first_failing, check_order.
  cbn [find check_fails]. rewrite Hreq, Hmin, Hmax, Hpat.
  rewrite bool_decide_eq_false_2
    by (intros Ht; rewrite Ht in Hlo; simpl in Hlo; lia).
  apply Nat.ltb_ge in Hlo, Hhi. by rewrite Hlo, Hhi.
Qed.

(** C4: for every field name whose rule specifies a minimum length and
    every string whose trimmed length is strictly below that minimum,
    [validateField] reports the field invalid. *)
Theorem validateField_below_minLength name rules m value :
  VALIDATION_RULES !! name = Some rules →
  minLength rules = Some m →
  length (trim value) < m →
  valid (validateField name value) = false.
Proof.
  intros Hown Hmin Hlt.
  unfold validateField. rewrite (rules_for_own _ _ Hown). cbv zeta.
  destruct (required rules && negb (str_truthy (trim value))); [done|].
  rewrite Hmin.
  destruct m as [|m]; [lia|]. cbn [num_truthy num_value default andb].
  apply Nat.ltb_lt in Hlt. unfold id. by rewrite Hlt.
Qed.

Lemma validateField_below_minLength_witness :
  VALIDATION_RULES !! js "message" = Some message_rule
  ∧ minLength message_rule = Some 10
  ∧ length (trim (js "  short  ")) < 10
  ∧ valid (validateField (js "message") (js "  short  ")) = false.
Proof.
  assert (length (trim (js "  short  ")) < 10) as Hlt by (vm_compute; lia).
  split_and!; [reflexivity|reflexivity|exact Hlt|].
  apply (validateField_below_minLength
           (js "message") message_rule 10 (js "  short  "));
    [reflexivity|reflexivity|exact Hlt].
Defined.

(** C5: for every field name with a rule and every string whose trimmed
    value has a length within the rule's minimum and maximum and, for the
    email field, matches [^[^\s@]+@[^\s@]+\.[^\s@]+$], [validateField]
    reports the field valid. *)
Theorem validateField_within_bounds name rules value :
  VALIDATION_RULES !! name = Some rules →
  within_bounds rules (trim value) →
  (name = js "email" → Matches EMAIL_PATTERN (trim value)) →
  validateField name value = Valid.
Proof.
  intros Hown [Hmin Hmax] Hmail.
  apply VALIDATION_RULES_lookup_Some in Hown
    as [[-> ->]|[[-> ->]|[-> ->]]].
  - apply (validateField_lengths_only _ name_rule 1 99); try done.
    split; [by apply Hmin|by apply Hmax].
  - by apply validateField_email_Matches, Hmail.
  - apply (validateField_lengths_only _ message_rule 9 999); try done.
    split; [by apply Hmin|by apply Hmax].
Qed.

Lemma validateField_within_bounds_witness :
  VALIDATION_RULES !! js "email" = Some email_rule
  ∧ within_bounds email_rule (trim (js " a@b.com "))
  ∧ Matches EMAIL_PATTERN (trim (js " a@b.com "))
  ∧ validateField (js "email") (js " a@b.com ") = Valid.
Proof.
  assert (within_bounds email_rule (trim (js " a@b.com "))) as Hb
    by (split; intros m Hm; vm_compute in Hm; discriminate).
  assert (Matches EMAIL_PATTERN (trim (js " a@b.com "))) as Hm
    by (apply RegExp_test_Matches; vm_compute; reflexivity).
  split_and!; [reflexivity|exact Hb|exact Hm|].
  apply (validateField_within_bounds (js "email") email_rule (js " a@b.com "));
    [reflexivity|exact Hb|intros _; exact Hm].
Defined.

(** C6: for every field name that has no entry in the static rule set and
    every string value, [validateField] returns a valid result. *)
Theorem validateField_no_rule name value :
  VALIDATION_RULES !! name = None →
  validateField name value = Valid.
Proof.
  intros Hnone. unfold validateField.
  destruct (rules_for name) as [rules|] eqn:Hrules; [|done].
  by rewrite (rules_for_not_own _ _ Hnone Hrules).
Qed.

Lemma validateField_no_rule_witness :
  VALIDATION_RULES !! js "phone" = None
  ∧ validateField (js "phone") (js "") = Valid.
Proof.
  split; [reflexivity|].
  apply (validateField_no_rule (js "phone") (js "")). reflexivity.
Defined.

(** C9: for every field name and every string value, [validateField] gives
    the same result on the value and on its trim. *)
Theorem validateField_trim name value :
  validateField name value = validateField name (trim value).
Proof. unfold validateField. by rewrite trim_idem. Qed.

(** C10: the email field's rule has no minimum and no maximum length, and
    every string whose trim is non-empty and matches
    [^[^\s@]+@[^\s@]+\.[^\s@]+$] is reported valid for the email field,
    whatever its length. *)
Theorem validateField_email_any_length rules value :
  VALIDATION_RULES !! js "email" = Some rules →
  trim value ≠ [] →
  Matches EMAIL_PATTERN (trim value) →
  minLength rules = None
  ∧ maxLength rules = None
  ∧ validateField (js "email") value = Valid.
Proof.
  intros Hown _ Hm.
  apply VALIDATION_RULES_lookup_Some in Hown
    as [[? _]|[[_ ->]|[? _]]]; [done| |done].
  split_and!; [done..|]. by apply validateField_email_Matches.
Qed.

Lemma validateField_email_any_length_witness :
  VALIDATION_RULES !! js "email" = Some email_rule
  ∧ (1000 <? length (trim long_email)) = true
  ∧ trim long_email ≠ []
  ∧ Matches EMAIL_PATTERN (trim long_email)
  ∧ minLength email_rule = None
  ∧ maxLength email_rule = None
  ∧ validateField (js "email") long_email = Valid.
Proof.
  assert (trim long_email ≠ []) as Hne by (vm_compute; discriminate).
  assert (Matches EMAIL_PATTERN (trim long_email)) as Hm
    by (apply RegExp_test_Matches; vm_compute; reflexivity).
  split_and!; [reflexivity|vm_compute; reflexivity|exact Hne|exact Hm|..];
    apply (validateField_email_any_length email_rule long_email);
    (reflexivity || exact Hne || exact Hm).
Defined.

(** Valid addresses exist beyond any length. *)
Lemma validateField_email_unbounded (n : nat) :
  ∃ value : list N,
    n < length value ∧ validateField (js "email") value = Valid.
Proof.
  set (l := repeat 97%N (S n)).
  assert (Forall plain l) as Hl.
  { apply Forall_forall. intros c Hc.
    apply list_elem_of_In, repeat_spec in Hc as ->. by split. }
  assert (Matches EMAIL_PATTERN (l ++ js "@b.c")) as Hm.
  { apply Matches_EMAIL_PATTERN. exists l, [98%N], [99%N].
    split_and!; try done; by repeat constructor. }
  exists (l ++ js "@b.c"). split.
  - rewrite length_app. unfold l. rewrite repeat_length. simpl. lia.
  - apply validateField_email_Matches.
    by rewrite (Matches_EMAIL_PATTERN_trim _ Hm).
Qed.

(** ** Properties of validateForm *)

Section ValidateForm.
Implicit Types (formData errors : gmap (list N) (list N)).
Implicit Types (entries : list (list N * list N)) (name value : list N).

(** The error entry a field contributes. *)
Lemma validateForm_step_lookup errors name value k :
  validateForm_step errors (name, value) !! k
  = if decide (name = k)
    then match validateField name value with
         | Invalid msg => Some msg
         | Valid => errors !! k
         end
    else errors !! k.
Proof.
  unfold validateForm_step.
  destruct (validateField name value) as [|msg].
  - by case_decide.
  - apply lookup_insert.
Qed.

(** The loop over entries with pairwise distinct names, whatever their
    order: a name's entry is decided by its own field alone. *)
Lemma validateForm_loop_lookup entries errors k :
  NoDup entries.*1 →
  validateForm_loop entries errors !! k
  = match (list_to_map entries : gmap (list N) (list N)) !! k with
    | Some value =>
        match validateField k value with
        | Invalid msg => Some msg
        | Valid => errors !! k
        end
    | None => errors !! k
    end.
Proof.
  unfold validateForm_loop.
  revert errors. induction entries as [|[name value] entries IH];
    intros errors Hnodup; [done|].
  apply NoDup_cons in Hnodup as [Hfresh Hnodup].
  rewrite list_to_map_cons. cbn [foldl]. rewrite (IH _ Hnodup).
  rewrite lookup_insert, !validateForm_step_lookup.
  destruct (decide (name = k)) as [->|Hne]; [|done].
  by rewrite (not_elem_of_list_to_map_1 _ _ Hfresh).
Qed.

Lemma validateForm_lookup formData k :
  validateForm formData !! k
  = match formData !! k with
    | Some value =>
        match validateField k value with
        | Invalid msg => Some msg
        | Valid => None
        end
    | None => None
    end.
Proof.
  unfold validateForm, Object_entries.
  rewrite validateForm_loop_lookup by apply NoDup_fst_map_to_list.
  by rewrite list_to_map_to_list, lookup_empty.
Qed.
End ValidateForm.

(** C2: for every input snapshot, [validateForm] returns exactly the
    mapping that gives each field name of the snapshot whose value
    [validateField] reports invalid the message [validateField] produced,
    and has no entry for any other name. *)
Theorem validateForm_exact (formData : gmap (list N) (list N)) :
  validateForm formData
  = map_imap (fun name value =>
                match validateField name value with
                | Invalid msg => Some msg
                | Valid => None
                end) formData.
Proof.
  apply map_eq. intros k.
  rewrite validateForm_lookup, map_lookup_imap.
  by destruct (formData !! k).
Qed.

(** C7: on the snapshot [{name: "A", email: "bad", message: "short"}]
    [validateForm] returns a mapping with exactly three entries, one for
    each of [name], [email] and [message]. *)
Theorem validateForm_three_errors :
  size (validateForm snapshot_three_errors) = 3
  ∧ dom (validateForm snapshot_three_errors)
    = {[js "name"; js "email"; js "message"]}
  ∧ validateForm snapshot_three_errors !! js "name"
    = Some (js "Please enter your name (at least 2 characters)")
  ∧ validateForm snapshot_three_errors !! js "email"
    = Some (js "Please enter a valid email address")
  ∧ validateForm snapshot_three_errors !! js "message"
    = Some (js "Please enter a message (at least 10 characters)").
Proof.
  assert (validateForm snapshot_three_errors
          = list_to_map
              [ (js "name", message name_rule);
                (js "email", message email_rule);
                (js "message", message message_rule) ]) as ->
    by (vm_compute; reflexivity).
  split_and!; reflexivity.
Qed.

(** ** Properties of handleSubmit *)

Lemma Object_keys_empty (errors : gmap (list N) (list N)) :
  (0 <? length (Object_keys errors)) = false ↔ errors = ∅.
Proof.
  unfold Object_keys, Object_entries.
  rewrite length_fmap, Nat.ltb_ge, <- map_to_list_empty_iff.
  destruct (map_to_list errors); simpl; split; (done || lia).
Qed.

(** [x || ''] is [x] for a string and [''] for [null]. *)
Lemma or_empty_default (x : option (list N)) : or_empty x = default [] x.
Proof. by destruct x as [[|c s]|]. Qed.

Lemma js_name_ne_email : js "name" ≠ js "email".
Proof. vm_compute. discriminate. Qed.

Lemma js_name_ne_message : js "name" ≠ js "message".
Proof. vm_compute. discriminate. Qed.

Lemma js_email_ne_message : js "email" ≠ js "message".
Proof. vm_compute. discriminate. Qed.

(** C3: [handleSubmit] calls [simulateSubmission] if and only if
    [validateForm] returns the empty mapping on the snapshot it built, and
    then it passes that snapshot; when [validateForm] reports any error the
    submission is not attempted. *)
Theorem handleSubmit_submits_iff_no_errors form lucky formData :
  SimulateSubmission formData ∈ handleSubmit form lucky
  ↔ formData = snapshot form ∧ validateForm (snapshot form) = ∅.
Proof.
  unfold handleSubmit. cbv zeta.
  rewrite <- Object_keys_empty.
  destruct (0 <? length (Object_keys (validateForm (snapshot form))));
    destruct (existingMessage form), lucky; cbn [simulateSubmission app];
    rewrite ?elem_of_cons, ?elem_of_nil; intuition congruence.
Qed.

(** C8, as amended: the snapshot built by [handleSubmit] has exactly the
    field names [name], [email] and [message], and maps each to the current
    string value of that input as the form reports it, not trimmed (the
    empty string when the form has no value under that name). *)
Theorem snapshot_raw_values form :
  dom (snapshot form) = {[js "name"; js "email"; js "message"]}
  ∧ snapshot form !! js "name"
    = Some (default [] (form_data form !! js "name"))
  ∧ snapshot form !! js "email"
    = Some (default [] (form_data form !! js "email"))
  ∧ snapshot form !! js "message"
    = Some (default [] (form_data form !! js "message")).
Proof.
  unfold snapshot. rewrite list_to_map_cons, !list_to_map_cons, list_to_map_nil.
  rewrite !or_empty_default.
  pose proof js_name_ne_email. pose proof js_name_ne_message.
  pose proof js_email_ne_message.
  split_and!.
  - rewrite !dom_insert_L, dom_empty_L. set_solver.
  - by rewrite lookup_insert_eq.
  - rewrite lookup_insert_ne by done. by rewrite lookup_insert_eq.
  - rewrite !lookup_insert_ne by done. by rewrite lookup_insert_eq.
Qed.

(** C8, as stated, fails on a name typed with surrounding blanks: the
    snapshot keeps the blanks, so the value is not its own trim. *)
Lemma snapshot_keeps_blanks :
  form_data form_padded_name !! js "name" = Some (js " Al ")
  ∧ snapshot form_padded_name !! js "name" = Some (js " Al ")
  ∧ trim (js " Al ") = js "Al"
  ∧ ¬ (∀ name value,
         snapshot form_padded_name !! name = Some value →
         value = trim value).
Proof.
  split_and!; [reflexivity..|].
  intros Htrim. specialize (Htrim (js "name") (js " Al ") eq_refl).
  vm_compute in Htrim. discriminate.
Qed.

(** ** Further properties of validateField *)

(** A string trims to the empty string exactly when it is blank. *)
Lemma trimStart_nil_iff (s : list N) :
  trimStart s = [] ↔ Forall (fun c => is_space c = true) s.
Proof.
  induction s as [|c s IH]; simpl.
  - split; [constructor|done].
  - destruct (is_space c) eqn:Hc.
    + rewrite IH. split; [by constructor|by inversion 1].
    + split; [done|]. inversion 1; congruence.
Qed.

Lemma trim_nil_iff (s : list N) :
  trim s = [] ↔ Forall (fun c => is_space c = true) s.
Proof.
  split.
  - intros Ht. destruct (trim_split s) as (w1 & w2 & Hs & H1 & H2).
    rewrite Hs, Ht. by apply Forall_app.
  - intros Hs. unfold trim. by apply trimStart_nil_iff in Hs as ->.
Qed.

(** The outcome on a field whose rule has length bounds and no pattern. *)
Lemma validateField_lengths_cases name rules lo hi value :
  rules_for name = Some rules →
  required rules = true →
  minLength rules = Some (S lo) →
  maxLength rules = Some (S hi) →
  pattern rules = None →
  validateField name value
  = if length (trim value) <? S lo then Invalid (message rules)
    else if S hi <? length (trim value) then Invalid (maximum_message (S hi))
    else Valid.
Proof.
  intros Hrules Hreq Hmin Hmax Hpat.
  unfold validateField. rewrite Hrules. cbv zeta.
  rewrite Hreq, Hmin, Hmax, Hpat.
  cbn [num_truthy num_value default andb]. unfold id.
  destruct (trim value) as [|c t]; [done|].
  cbn [str_truthy negb]. by repeat case_match.
Qed.

(** The rules of the table that bound the length: [name] and [message]. *)
Lemma VALIDATION_RULES_bounded name rules lo hi :
  VALIDATION_RULES !! name = Some rules →
  minLength rules = Some lo →
  maxLength rules = Some hi →
  ∃ lo' hi', lo = S lo' ∧ hi = S hi' ∧ lo ≤ hi
             ∧ required rules = true ∧ pattern rules = None.
Proof.
  intros Hown Hmin Hmax.
  apply VALIDATION_RULES_lookup_Some in Hown
    as [[_ ->]|[[_ ->]|[_ ->]]]; simplify_eq/=.
  - exists 1, 99. split_and!; (done || lia).
  - exists 9, 999. split_and!; (done || lia).
Qed.

(** X1: a field whose rule bounds the length ([name]: 2 to 100,
    [message]: 10 to 1000) is valid exactly when the length of the trimmed
    value lies within the bounds, both ends included. *)
Theorem validateField_valid_iff_within name rules lo hi value :
  VALIDATION_RULES !! name = Some rules →
  minLength rules = Some lo →
  maxLength rules = Some hi →
  validateField name value = Valid ↔ lo ≤ length (trim value) ≤ hi.
Proof.
  intros Hown Hmin Hmax.
  destruct (VALIDATION_RULES_bounded _ _ _ _ Hown Hmin Hmax)
    as (lo' & hi' & -> & -> & _ & Hreq & Hpat).
  rewrite (validateField_lengths_cases _ _ lo' hi' _
             (rules_for_own _ _ Hown) Hreq Hmin Hmax Hpat).
  destruct (length (trim value) <? S lo') eqn:Hlo;
    [apply Nat.ltb_lt in Hlo|apply Nat.ltb_ge in Hlo];
    [split; [done|lia]|].
  destruct (S hi' <? length (trim value)) eqn:Hhi;
    [apply Nat.ltb_lt in Hhi|apply Nat.ltb_ge in Hhi];
    [split; [done|lia]|done].
Qed.

Lemma validateField_valid_iff_within_witness :
  VALIDATION_RULES !! js "name" = Some name_rule
  ∧ minLength name_rule = Some 2
  ∧ maxLength name_rule = Some 100
  ∧ (validateField (js "name") (js " Al ") = Valid
     ↔ 2 ≤ length (trim (js " Al ")) ≤ 100).
Proof.
  split_and!; [reflexivity..|].
  apply (validateField_valid_iff_within (js "name") name_rule 2 100 (js " Al "));
    reflexivity.
Defined.

(** X2: a trimmed value longer than the rule's maximum length is reported
    with the text "Maximum N characters allowed", N being that maximum. *)
Theorem validateField_above_maxLength name rules hi value :
  VALIDATION_RULES !! name = Some rules →
  maxLength rules = Some hi →
  hi < length (trim value) →
  validateField name value = Invalid (maximum_message hi).
Proof.
  intros Hown Hmax Hlt.
  assert (∃ lo, minLength rules = Some lo) as [lo Hmin].
  { apply VALIDATION_RULES_lookup_Some in Hown
      as [[_ ->]|[[_ ->]|[_ ->]]]; simplify_eq/=; eauto. }
  destruct (VALIDATION_RULES_bounded _ _ _ _ Hown Hmin Hmax)
    as (lo' & hi' & -> & -> & Hle & Hreq & Hpat).
  rewrite (validateField_lengths_cases _ _ lo' hi' _
             (rules_for_own _ _ Hown) Hreq Hmin Hmax Hpat).
  rewrite (proj2 (Nat.ltb_ge _ _)) by lia.
  by rewrite (proj2 (Nat.ltb_lt _ _)) by lia.
Qed.

Lemma validateField_above_maxLength_witness :
  VALIDATION_RULES !! js "name" = Some name_rule
  ∧ maxLength name_rule = Some 100
  ∧ (100 <? length (trim (repeat 97%N 101))) = true
  ∧ validateField (js "name") (repeat 97%N 101)
    = Invalid (maximum_message 100).
Proof.
  split_and!; [reflexivity..|].
  apply (validateField_above_maxLength
           (js "name") name_rule 100 (repeat 97%N 101));
    [reflexivity|reflexivity|].
  apply Nat.ltb_lt. vm_compute. reflexivity.
Defined.

(** Every field of the rule table is required. *)
Lemma validateField_trim_nil name rules value :
  VALIDATION_RULES !! name = Some rules →
  trim value = [] →
  validateField name value = Invalid (message rules).
Proof.
  intros Hown Hblank.
  unfold validateField. rewrite (rules_for_own _ _ Hown). cbv zeta.
  rewrite Hblank.
  by apply VALIDATION_RULES_lookup_Some in Hown
    as [[_ ->]|[[_ ->]|[_ ->]]].
Qed.

(** X3: every field of the rule table is required: a value that is empty
    or consists of white space only is reported with the rule's
    [message]. *)
Theorem validateField_blank name rules value :
  VALIDATION_RULES !! name = Some rules →
  Forall (fun c => is_space c = true) value →
  validateField name value = Invalid (message rules).
Proof.
  intros Hown Hblank. apply validateField_trim_nil; [done|].
  by apply trim_nil_iff.
Qed.

Lemma validateField_blank_witness :
  VALIDATION_RULES !! js "email" = Some email_rule
  ∧ Forall (fun c => is_space c = true) (js "   ")
  ∧ validateField (js "email") (js "   ") = Invalid (message email_rule).
Proof.
  assert (Forall (fun c => is_space c = true) (js "   ")) as Hb
    by (repeat constructor).
  split_and!; [reflexivity|exact Hb|].
  apply (validateField_blank (js "email") email_rule (js "   "));
    [reflexivity|exact Hb].
Defined.

(** On the email field only the pattern decides. *)
Lemma validateField_email_iff_Matches (value : list N) :
  validateField (js "email") value = Valid
  ↔ Matches EMAIL_PATTERN (trim value).
Proof.
  split; [|apply validateField_email_Matches].
  rewrite (validateField_first_failing _ email_rule) by done.
  unfold first_failing_message, first_failing, check_order.
  cbn [find check_fails required minLength maxLength pattern email_rule andb].
  intros Hvalid. apply RegExp_test_Matches.
  destruct (RegExp_test EMAIL_PATTERN (trim value)); [done|].
  by destruct (bool_decide (trim value = [])).
Qed.

(** X4: the email field is valid exactly when the trimmed value reads
    local part, [@], domain, [.], suffix, where the three parts are
    non-empty and hold neither white space nor [@]. *)
Theorem validateField_email_valid_iff (value : list N) :
  validateField (js "email") value = Valid
  ↔ ∃ l d t, trim value = l ++ [64%N] ++ d ++ [46%N] ++ t
             ∧ l ≠ [] ∧ d ≠ [] ∧ t ≠ []
             ∧ Forall plain l ∧ Forall plain d ∧ Forall plain t.
Proof.
  by rewrite validateField_email_iff_Matches, Matches_EMAIL_PATTERN.
Qed.

Lemma count_occ_plain (u : list N) :
  Forall plain u → count_occ N.eq_dec u 64%N = 0.
Proof.
  induction 1 as [|c u [_ Hc] _ IH]; [done|].
  simpl. by destruct (N.eq_dec c 64%N).
Qed.

(** X5: a valid email value holds, once trimmed, exactly one [@], no white
    space, and at least five characters. *)
Theorem validateField_email_valid_one_at (value : list N) :
  validateField (js "email") value = Valid →
  count_occ N.eq_dec (trim value) 64%N = 1
  ∧ Forall (fun c => is_space c = false) (trim value)
  ∧ 5 ≤ length (trim value).
Proof.
  intros Hvalid. apply validateField_email_iff_Matches in Hvalid.
  split_and!; [| by apply Matches_EMAIL_PATTERN_no_space |].
  - apply Matches_EMAIL_PATTERN in Hvalid
      as (l & d & t & -> & _ & _ & _ & Hl & Hd & Ht).
    rewrite !count_occ_app.
    by rewrite (count_occ_plain l), (count_occ_plain d), (count_occ_plain t).
  - apply Matches_EMAIL_PATTERN in Hvalid
      as (l & d & t & -> & Hl & Hd & Ht & _).
    rewrite !length_app. simpl.
    destruct l, d, t; simpl; (done || lia).
Qed.

Lemma validateField_email_valid_one_at_witness :
  validateField (js "email") (js " a.b@c.d.e ") = Valid
  ∧ count_occ N.eq_dec (trim (js " a.b@c.d.e ")) 64%N = 1
  ∧ Forall (fun c => is_space c = false) (trim (js " a.b@c.d.e "))
  ∧ 5 ≤ length (trim (js " a.b@c.d.e ")).
Proof.
  split; [reflexivity|].
  apply (validateField_email_valid_one_at (js " a.b@c.d.e ")).
  reflexivity.
Defined.

(** ** Properties of the error marks *)

#[local] Set Warnings "-clear-no-such-hyp".

Lemma js_has_error_ne_error : js "has-error" ≠ js "error".
Proof. vm_compute. discriminate. Qed.

Lemma js_attribute_names_distinct :
  js "name" ≠ js "aria-invalid" ∧ js "name" ≠ js "aria-describedby"
  ∧ js "name" ≠ js "id" ∧ js "id" ≠ js "aria-invalid"
  ∧ js "id" ≠ js "aria-describedby"
  ∧ js "aria-invalid" ≠ js "aria-describedby".
Proof. split_and!; vm_compute; discriminate. Qed.

Lemma str_or_nonempty (x y : list N) : y ≠ [] → str_or x y ≠ [].
Proof. unfold str_or. by destruct x. Qed.

Lemma str_or_id (x y : list N) : x ≠ [] → str_or x y = x.
Proof. unfold str_or. by destruct x. Qed.

Lemma js_error_prefix_nonempty (s : list N) : js "error-" ++ s ≠ [].
Proof. done. Qed.

Section FieldErrors.
Variable L : Layout.
Implicit Types (p : Page) (field i g e : nat) (msg : list N).

(** Unfold the writes of [showFieldError] and [clearFieldError] at a node
    and split on which nodes coincide. *)
Ltac split_writes :=
  cbn -[js]; unfold update; cbn -[js];
  repeat case_decide; subst; cbn -[js]; try done.

(** [showFieldError] puts class [error] on the field, when it stands in a
    form group, and on no other node. *)
Lemma showFieldError_error_class p field msg i :
  js "error" ∈ classList (element (showFieldError L p field msg) i)
  ↔ js "error" ∈ classList (element p i)
    ∨ (i = field ∧ is_Some (closest_form_group L field)).
Proof.
  pose proof js_has_error_ne_error.
  unfold showFieldError. rewrite is_Some_alt.
  destruct (closest_form_group L field) as [g|]; [|naive_solver].
  destruct (form_error_in L g) as [e|]; split_writes; set_solver.
Qed.

(** [clearFieldError] takes class [error] off the field, when it stands in
    a form group, and changes it on no other node. *)
Lemma clearFieldError_error_class p field i :
  js "error" ∈ classList (element (clearFieldError L p field) i)
  ↔ js "error" ∈ classList (element p i)
    ∧ ¬ (i = field ∧ is_Some (closest_form_group L field)).
Proof.
  pose proof js_has_error_ne_error.
  unfold clearFieldError. rewrite is_Some_alt.
  destruct (closest_form_group L field) as [g|]; [|naive_solver].
  destruct (form_error_in L g) as [e|]; split_writes; set_solver.
Qed.

(** Neither function changes the [name] or the value of any element. *)
Lemma showFieldError_name_value p field msg i :
  reflected (js "name") (element (showFieldError L p field msg) i)
  = reflected (js "name") (element p i)
  ∧ value (element (showFieldError L p field msg) i) = value (element p i).
Proof.
  destruct js_attribute_names_distinct as (? & ? & ? & _).
  unfold showFieldError, reflected.
  destruct (closest_form_group L field) as [g|]; [|done].
  destruct (form_error_in L g) as [e|]; split_writes;
    by rewrite ?lookup_insert_ne by done.
Qed.

Lemma clearFieldError_name_value p field i :
  reflected (js "name") (element (clearFieldError L p field) i)
  = reflected (js "name") (element p i)
  ∧ value (element (clearFieldError L p field) i) = value (element p i).
Proof.
  destruct js_attribute_names_distinct as (? & ? & ? & _).
  unfold clearFieldError, reflected.
  destruct (closest_form_group L field) as [g|]; [|done].
  destruct (form_error_in L g) as [e|]; split_writes;
    by rewrite ?lookup_delete_ne by done.
Qed.

(** X6: after [showFieldError] on a field that stands in a form group, the
    field carries class [error] and [aria-invalid="true"], and the group
    class [has-error]; if the group has an error slot, the slot shows the
    message, it has a non-empty [id], and the field's [aria-describedby]
    is that [id]. *)
Theorem showFieldError_marks p field msg g :
  closest_form_group L field = Some g →
  let p' := showFieldError L p field msg in
  js "error" ∈ classList (element p' field)
  ∧ js "has-error" ∈ classList (element p' g)
  ∧ attributes (element p' field) !! js "aria-invalid" = Some (js "true")
  ∧ ∀ e, form_error_in L g = Some e →
         textContent (element p' e) = msg
         ∧ reflected (js "id") (element p' e) ≠ []
         ∧ attributes (element p' field) !! js "aria-describedby"
           = Some (reflected (js "id") (element p' e)).
Proof.
  intros Hg p'. subst p'.
  destruct js_attribute_names_distinct as (_ & _ & _ & ? & ? & ?).
  unfold showFieldError. rewrite Hg.
  destruct (form_error_in L g) as [e|].
  - split_and!; [(split_writes; set_solver)..| |].
    + split_writes; by simplify_map_eq.
    + intros ? [= <-]. unfold reflected. split_and!.
      * by split_writes.
      * split_writes; simplify_map_eq;
          by apply str_or_nonempty, js_error_prefix_nonempty.
      * split_writes; by simplify_map_eq.
  - split_and!; [(split_writes; set_solver)..| |done].
    split_writes; by simplify_map_eq.
Qed.

(** X7: after [clearFieldError] on a field that stands in a form group,
    whatever the page was, the field carries neither class [error] nor
    [aria-invalid] nor [aria-describedby], the group does not carry
    [has-error], and the error slot of the group, if any, is empty. *)
Theorem clearFieldError_unmarks p field g :
  closest_form_group L field = Some g →
  let p' := clearFieldError L p field in
  (js "error" ∉ classList (element p' field))
  ∧ (js "has-error" ∉ classList (element p' g))
  ∧ attributes (element p' field) !! js "aria-invalid" = None
  ∧ attributes (element p' field) !! js "aria-describedby" = None
  ∧ ∀ e, form_error_in L g = Some e → textContent (element p' e) = [].
Proof.
  intros Hg p'. subst p'.
  destruct js_attribute_names_distinct as (_ & _ & _ & ? & ? & ?).
  unfold clearFieldError. rewrite Hg.
  destruct (form_error_in L g) as [e|].
  - split_and!; [(split_writes; set_solver)..| | |].
    + split_writes; by simplify_map_eq.
    + split_writes; by simplify_map_eq.
    + intros ? [= <-]. by split_writes.
  - split_and!; [(split_writes; set_solver)..| | |done].
    + split_writes; by simplify_map_eq.
    + split_writes; by simplify_map_eq.
Qed.

(** Equality of elements, field by field. *)
Lemma Element_eq (a b : Element) :
  classList a = classList b →
  attributes a = attributes b →
  textContent a = textContent b →
  value a = value b →
  a = b.
Proof. destruct a, b; simpl; congruence. Qed.


(** Settle the comparisons of nodes that the context decides. *)
Ltac decide_nodes :=
  repeat first [ rewrite decide_True by done
               | rewrite decide_False by done ].

(** The writes of [showFieldError], node by node, when the field, its form
    group and the error slot of the group are three nodes. *)
Lemma showFieldError_element p field msg g e i :
  closest_form_group L field = Some g →
  form_error_in L g = Some e →
  field ≠ g → field ≠ e → g ≠ e →
  element (showFieldError L p field msg) i
  = if decide (i = field) then
      setAttribute (js "aria-describedby") (error_id p field e)
        (setAttribute (js "aria-invalid") (js "true")
           (classList_add (js "error") (element p field)))
    else if decide (i = g) then classList_add (js "has-error") (element p g)
    else if decide (i = e) then
      setAttribute (js "id") (error_id p field e)
        (set_textContent msg (element p e))
    else element p i.
Proof.
  intros Hg He Hfg Hfe Hge.
  destruct js_attribute_names_distinct as (? & _ & _ & _).
  unfold showFieldError, error_id, reflected. rewrite Hg, He.
  cbn -[js]. unfold update. cbn -[js].
  destruct (decide (i = field)) as [->|];
    [|destruct (decide (i = g)) as [->|];
      [|destruct (decide (i = e)) as [->|]]];
    decide_nodes; cbn -[js]; by rewrite ?lookup_insert_ne by done.
Qed.

Lemma clearFieldError_element p field g e i :
  closest_form_group L field = Some g →
  form_error_in L g = Some e →
  field ≠ g → field ≠ e → g ≠ e →
  element (clearFieldError L p field) i
  = if decide (i = field) then
      removeAttribute (js "aria-describedby")
        (removeAttribute (js "aria-invalid")
           (classList_remove (js "error") (element p field)))
    else if decide (i = g) then
      classList_remove (js "has-error") (element p g)
    else if decide (i = e) then set_textContent [] (element p e)
    else element p i.
Proof.
  intros Hg He Hfg Hfe Hge.
  unfold clearFieldError. rewrite Hg, He.
  cbn -[js]. unfold update. cbn -[js].
  destruct (decide (i = field)) as [->|];
    [|destruct (decide (i = g)) as [->|];
      [|destruct (decide (i = e)) as [->|]]];
    by decide_nodes.
Qed.

(** X8: on a field that shows no error, [clearFieldError] undoes
    [showFieldError], except that the error slot keeps the [id] it was
    given: the page is the one before, with that [id] on the slot.  The
    field, its form group and the error slot of the group are three
    nodes. *)
Theorem clearFieldError_showFieldError p field msg g e :
  closest_form_group L field = Some g →
  form_error_in L g = Some e →
  field ≠ g → field ≠ e → g ≠ e →
  js "error" ∉ classList (element p field) →
  js "has-error" ∉ classList (element p g) →
  attributes (element p field) !! js "aria-invalid" = None →
  attributes (element p field) !! js "aria-describedby" = None →
  textContent (element p e) = [] →
  same_page
    (clearFieldError L (showFieldError L p field msg) field)
    (update e (setAttribute (js "id") (error_id p field e)) p).
Proof.
  intros Hg He Hfg Hfe Hge Hcf Hcg Hinv Hdesc Htext.
  destruct js_attribute_names_distinct as (_ & _ & _ & _ & _ & ?).
  split.
  - unfold clearFieldError, showFieldError. by rewrite Hg, He.
  - intros i.
    rewrite (clearFieldError_element _ _ g e) by done.
    rewrite !(showFieldError_element _ _ _ g e) by done.
    cbn -[js]. unfold update. cbn -[js].
    destruct (decide (i = field)) as [->|];
      [|destruct (decide (i = g)) as [->|];
        [|destruct (decide (i = e)) as [->|]]];
      decide_nodes; try done; apply Element_eq; cbn -[js]; try done.
    + set_solver.
    + apply map_eq. intros k.
      rewrite !lookup_delete, !lookup_insert.
      repeat case_decide; subst; congruence.
    + set_solver.
Qed.

Lemma showFieldError_activeElement p field msg :
  activeElement (showFieldError L p field msg) = activeElement p.
Proof.
  unfold showFieldError.
  destruct (closest_form_group L field) as [g|]; [|done].
  by destruct (form_error_in L g).
Qed.

(** X9: after [handleBlur] on a field that has a rule and stands in a form
    group, the field carries class [error] exactly when [validateField]
    reports its name and value invalid. *)
Theorem handleBlur_mark_iff_invalid p field g rules :
  VALIDATION_RULES !! reflected (js "name") (element p field) = Some rules →
  closest_form_group L field = Some g →
  has_class (handleBlur L p field) field (js "error")
  = negb (valid (validateField (reflected (js "name") (element p field))
                               (value (element p field)))).
Proof.
  intros Hown Hg. unfold handleBlur, has_class. cbv zeta.
  rewrite (rules_for_own _ _ Hown).
  destruct (validateField _ _) as [|msg]; cbn [valid negb].
  - apply bool_decide_eq_false.
    rewrite clearFieldError_error_class, Hg. naive_solver.
  - apply bool_decide_eq_true.
    rewrite showFieldError_error_class, Hg. naive_solver.
Qed.

(** X10: [handleInput] never marks a node: a node carries class [error]
    afterwards exactly when it did before and it is not the field typed
    in, with its value now valid, standing in a form group. *)
Theorem handleInput_error_class p field i :
  js "error" ∈ classList (element (handleInput L p field) i)
  ↔ js "error" ∈ classList (element p i)
    ∧ ¬ (i = field
         ∧ validateField (reflected (js "name") (element p field))
                         (value (element p field)) = Valid
         ∧ is_Some (closest_form_group L field)).
Proof.
  unfold handleInput, has_class.
  case_bool_decide as Hmark.
  - destruct (validateField _ _) as [|msg]; cbn [valid].
    + rewrite clearFieldError_error_class. naive_solver.
    + naive_solver.
  - naive_solver.
Qed.

(** X11: an input event right after a blur event on the same field, the
    value unchanged, changes nothing: [handleInput] leaves the page as
    [handleBlur] made it. *)
Theorem handleInput_after_handleBlur p field rules :
  VALIDATION_RULES !! reflected (js "name") (element p field) = Some rules →
  handleInput L (handleBlur L p field) field = handleBlur L p field.
Proof.
  intros Hown.
  assert (handleBlur L p field
          = match validateField (reflected (js "name") (element p field))
                                (value (element p field)) with
            | Invalid msg => showFieldError L p field msg
            | Valid => clearFieldError L p field
            end) as Hblur.
  { unfold handleBlur. cbv zeta. by rewrite (rules_for_own _ _ Hown). }
  unfold handleInput, has_class. rewrite Hblur.
  destruct (validateField (reflected (js "name") (element p field))
                          (value (element p field))) as [|msg] eqn:Hv.
  - destruct (clearFieldError_name_value p field field) as [-> ->].
    rewrite Hv. cbn [valid].
    case_bool_decide as Hmark; [|done].
    apply clearFieldError_error_class in Hmark as [_ Hgroup].
    unfold clearFieldError at 1.
    destruct (closest_form_group L field) as [g|]; [|done].
    destruct Hgroup. by eauto.
  - destruct (showFieldError_name_value p field msg field) as [-> ->].
    rewrite Hv. cbn [valid]. by case_bool_decide.
Qed.

Lemma clearAllErrors_error_class_aux p i :
  js "error" ∈ classList (element (clearAllErrors L p) i)
  ↔ js "error" ∈ classList (element p i)
    ∧ ¬ (i ∈ form_fields L ∧ is_Some (closest_form_group L i)).
Proof.
  unfold clearAllErrors. revert p.
  induction (form_fields L) as [|field fields IH]; intros p; simpl.
  - rewrite elem_of_nil. naive_solver.
  - rewrite IH, clearFieldError_error_class, elem_of_cons. naive_solver.
Qed.

(** X12: after [clearAllErrors] a node carries class [error] exactly when
    it did before and it is not a field of the form standing in a form
    group. *)
Theorem clearAllErrors_error_class p i :
  js "error" ∈ classList (element (clearAllErrors L p) i)
  ↔ js "error" ∈ classList (element p i)
    ∧ ¬ (i ∈ form_fields L ∧ is_Some (closest_form_group L i)).
Proof. apply clearAllErrors_error_class_aux. Qed.

Lemma clearAllErrors_activeElement p :
  activeElement (clearAllErrors L p) = activeElement p.
Proof.
  unfold clearAllErrors. revert p.
  induction (form_fields L) as [|field fields IH]; intros p; [done|].
  simpl. rewrite IH. unfold clearFieldError.
  destruct (closest_form_group L field) as [g|]; [|done].
  by destruct (form_error_in L g).
Qed.

(** The loop of [displayErrors] marks the targeted fields and no other
    node, and leaves the focus where it is. *)
Lemma displayErrors_loop p (entries : list (list N * list N)) :
  let p' :=
    foldl (fun p '(name, msg) =>
             match field_by_name L name with
             | Some field => showFieldError L p field msg
             | None => p
             end) p entries in
  activeElement p' = activeElement p
  ∧ ∀ i, js "error" ∈ classList (element p' i)
         ↔ js "error" ∈ classList (element p i)
           ∨ targeted L entries i = true.
Proof.
  revert p. induction entries as [|[name msg] entries IH]; intros p; simpl.
  - naive_solver.
  - destruct (IH (match field_by_name L name with
                  | Some field => showFieldError L p field msg
                  | None => p
                  end)) as [-> IHc].
    split.
    + destruct (field_by_name L name); [|done].
      apply showFieldError_activeElement.
    + intros i. rewrite IHc, orb_true_iff, bool_decide_eq_true.
      destruct (field_by_name L name) as [field|].
      * rewrite showFieldError_error_class. naive_solver.
      * naive_solver.
Qed.

Lemma find_ext_elem_of {A} (f g : A → bool) (l : list A) :
  (∀ x, x ∈ l → f x = g x) → find f l = find g l.
Proof.
  induction l as [|x l IH]; intros Hfg; [done|]. simpl.
  rewrite (Hfg x) by left. rewrite IH; [done|].
  intros y Hy. apply Hfg. by right.
Qed.

(** X13: when no field of the form carries class [error] beforehand,
    [displayErrors] moves the focus to the first field, in document
    order, that an entry of the errors selects by name and that stands in
    a form group, whatever the order of the entries; when there is no such
    field the focus stays where it is. *)
Theorem displayErrors_focus p (entries : list (list N * list N)) :
  (∀ i, i ∈ form_fields L → js "error" ∉ classList (element p i)) →
  activeElement (displayErrors L p entries)
  = match find (targeted L entries) (form_fields L) with
    | Some field => Some field
    | None => activeElement p
    end.
Proof.
  intros Hclean. unfold displayErrors.
  destruct (displayErrors_loop p entries) as [Hfocus Hmarks].
  cbv zeta in *.
  rewrite (find_ext_elem_of _ (targeted L entries)).
  - by destruct (find _ _).
  - intros i Hi. unfold has_class.
    destruct (targeted L entries i) eqn:Ht.
    + apply bool_decide_eq_true, Hmarks. by right.
    + apply bool_decide_eq_false. rewrite Hmarks.
      intros [?|?]; [by eapply Hclean|congruence].
Qed.

(** X14: [clearAllErrors] followed by [displayErrors], as [handleSubmit]
    runs them, moves the focus to the first field in document order that
    an entry selects, provided every field of the form stands in a form
    group; whatever was marked before plays no part. *)
Theorem displayErrors_after_clearAllErrors p
    (entries : list (list N * list N)) :
  (∀ i, i ∈ form_fields L → is_Some (closest_form_group L i)) →
  activeElement (displayErrors L (clearAllErrors L p) entries)
  = match find (targeted L entries) (form_fields L) with
    | Some field => Some field
    | None => activeElement p
    end.
Proof.
  intros Hgroups. unfold displayErrors.
  destruct (displayErrors_loop (clearAllErrors L p) entries)
    as [Hfocus Hmarks].
  cbv zeta in *.
  assert (∀ i, i ∈ form_fields L →
               js "error" ∉ classList (element (clearAllErrors L p) i))
    as Hclean.
  { intros i Hi [_ Hno]%(clearAllErrors_error_class_aux p i). naive_solver. }
  rewrite (find_ext_elem_of _ (targeted L entries)).
  - destruct (find _ _); [done|].
    by rewrite Hfocus, clearAllErrors_activeElement.
  - intros i Hi. unfold has_class.
    destruct (targeted L entries i) eqn:Ht.
    + apply bool_decide_eq_true, Hmarks. by right.
    + apply bool_decide_eq_false. rewrite Hmarks.
      intros [?|?]; [by eapply Hclean|congruence].
Qed.
End FieldErrors.

(** The theorems above on the contact form of three fields. *)

Lemma showFieldError_marks_witness :
  closest_form_group contact_layout 1 = Some 11
  ∧ let p' := showFieldError contact_layout contact_page 1 (js "Too short") in
    js "error" ∈ classList (element p' 1)
    ∧ js "has-error" ∈ classList (element p' 11)
    ∧ attributes (element p' 1) !! js "aria-invalid" = Some (js "true")
    ∧ ∀ e, form_error_in contact_layout 11 = Some e →
           textContent (element p' e) = js "Too short"
           ∧ reflected (js "id") (element p' e) ≠ []
           ∧ attributes (element p' 1) !! js "aria-describedby"
             = Some (reflected (js "id") (element p' e)).
Proof.
  split; [reflexivity|].
  apply (showFieldError_marks contact_layout contact_page 1 (js "Too short") 11).
  reflexivity.
Defined.

Lemma clearFieldError_unmarks_witness :
  closest_form_group contact_layout 1 = Some 11
  ∧ let p' := clearFieldError contact_layout
                (showFieldError contact_layout contact_page 1 (js "Too short"))
                1 in
    (js "error" ∉ classList (element p' 1))
    ∧ (js "has-error" ∉ classList (element p' 11))
    ∧ attributes (element p' 1) !! js "aria-invalid" = None
    ∧ attributes (element p' 1) !! js "aria-describedby" = None
    ∧ ∀ e, form_error_in contact_layout 11 = Some e →
           textContent (element p' e) = [].
Proof.
  split; [reflexivity|].
  apply (clearFieldError_unmarks contact_layout
           (showFieldError contact_layout contact_page 1 (js "Too short"))
           1 11).
  reflexivity.
Defined.

Lemma clearFieldError_showFieldError_witness :
  closest_form_group contact_layout 1 = Some 11
  ∧ form_error_in contact_layout 11 = Some 21
  ∧ same_page
      (clearFieldError contact_layout
         (showFieldError contact_layout contact_page 1 (js "Too short")) 1)
      (update 21 (setAttribute (js "id") (error_id contact_page 1 21))
         contact_page).
Proof.
  split_and!; [reflexivity..|].
  apply (clearFieldError_showFieldError contact_layout contact_page 1
           (js "Too short") 11 21);
    try reflexivity; try lia;
    vm_compute; discriminate.
Defined.

Lemma handleBlur_mark_iff_invalid_witness :
  VALIDATION_RULES !! reflected (js "name") (element contact_page 3)
  = Some message_rule
  ∧ closest_form_group contact_layout 3 = Some 13
  ∧ has_class (handleBlur contact_layout contact_page 3) 3 (js "error")
    = negb (valid (validateField
                     (reflected (js "name") (element contact_page 3))
                     (value (element contact_page 3)))).
Proof.
  split_and!; [reflexivity..|].
  apply (handleBlur_mark_iff_invalid contact_layout contact_page 3 13
           message_rule); reflexivity.
Defined.

Lemma handleInput_after_handleBlur_witness :
  VALIDATION_RULES !! reflected (js "name") (element contact_page 1)
  = Some name_rule
  ∧ handleInput contact_layout (handleBlur contact_layout contact_page 1) 1
    = handleBlur contact_layout contact_page 1.
Proof.
  split; [reflexivity|].
  apply (handleInput_after_handleBlur contact_layout contact_page 1 name_rule).
  reflexivity.
Defined.

Lemma contact_page_clean i :
  i ∈ form_fields contact_layout →
  js "error" ∉ classList (element contact_page i).
Proof.
  intros Hi Hin. cbn in Hi.
  repeat (apply elem_of_cons in Hi as [->|Hi]; [by vm_compute in Hin|]).
  by apply elem_of_nil in Hi.
Qed.

Lemma contact_layout_groups i :
  i ∈ form_fields contact_layout →
  is_Some (closest_form_group contact_layout i).
Proof.
  intros Hi. cbn in Hi.
  repeat (apply elem_of_cons in Hi as [->|Hi]; [by eexists|]).
  by apply elem_of_nil in Hi.
Qed.

Lemma displayErrors_focus_witness :
  (∀ i, i ∈ form_fields contact_layout →
        js "error" ∉ classList (element contact_page i))
  ∧ activeElement
      (displayErrors contact_layout contact_page
         [(js "message", js "Too short"); (js "email", js "Not an address")])
    = Some 2.
Proof.
  split; [exact contact_page_clean|].
  apply (displayErrors_focus contact_layout contact_page
           [(js "message", js "Too short"); (js "email", js "Not an address")]).
  exact contact_page_clean.
Defined.

Lemma displayErrors_after_clearAllErrors_witness :
  (∀ i, i ∈ form_fields contact_layout →
        is_Some (closest_form_group contact_layout i))
  ∧ activeElement
      (displayErrors contact_layout
         (clearAllErrors contact_layout
            (showFieldError contact_layout contact_page 1 (js "Too short")))
         [(js "message", js "Too short"); (js "email", js "Not an address")])
    = Some 2.
Proof.
  split; [exact contact_layout_groups|].
  apply (displayErrors_after_clearAllErrors contact_layout
           (showFieldError contact_layout contact_page 1 (js "Too short"))
           [(js "message", js "Too short"); (js "email", js "Not an address")]).
  exact contact_layout_groups.
Defined.

(** ** Further properties of validateForm and handleSubmit *)

Lemma validateField_trim_idem (name value : list N) :
  validateField name (trim value) = validateField name value.
Proof. unfold validateField. by rewrite trim_idem. Qed.

(** X15: every entry of the result of [validateForm] stands for a field of
    the snapshot that has a rule in the table, and carries the message
    [validateField] gives for it. *)
Theorem validateForm_entry_has_rule
    (formData : gmap (list N) (list N)) name msg :
  validateForm formData !! name = Some msg →
  ∃ value rules,
    formData !! name = Some value
    ∧ VALIDATION_RULES !! name = Some rules
    ∧ validateField name value = Invalid msg.
Proof.
  rewrite validateForm_lookup. intros Hentry.
  destruct (formData !! name) as [value|]; [|done].
  destruct (validateField name value) as [|msg'] eqn:Hv; simplify_eq.
  exists value.
  destruct (VALIDATION_RULES !! name) as [rules|] eqn:Hown; [by eauto|].
  unfold validateField in Hv.
  destruct (rules_for name) as [rules|] eqn:Hrules; [|done].
  by rewrite (rules_for_not_own _ _ Hown Hrules) in Hv.
Qed.

Lemma validateForm_entry_has_rule_witness :
  validateForm snapshot_three_errors !! js "email"
  = Some (js "Please enter a valid email address")
  ∧ ∃ value rules,
      snapshot_three_errors !! js "email" = Some value
      ∧ VALIDATION_RULES !! js "email" = Some rules
      ∧ validateField (js "email") value
        = Invalid (js "Please enter a valid email address").
Proof.
  split; [vm_compute; reflexivity|].
  apply (validateForm_entry_has_rule snapshot_three_errors (js "email")
           (js "Please enter a valid email address")).
  vm_compute. reflexivity.
Defined.

(** X16: [validateForm] returns the empty mapping exactly when
    [validateField] reports every field of the snapshot valid. *)
Theorem validateForm_empty_iff (formData : gmap (list N) (list N)) :
  validateForm formData = ∅
  ↔ ∀ name value,
      formData !! name = Some value → validateField name value = Valid.
Proof.
  rewrite map_empty. setoid_rewrite validateForm_lookup. split.
  - intros Hnone name value Hname. specialize (Hnone name).
    rewrite Hname in Hnone. by destruct (validateField name value).
  - intros Hvalid name. destruct (formData !! name) as [value|] eqn:Hname;
      [|done].
    by rewrite (Hvalid _ _ Hname).
Qed.

(** X17: setting one field of the snapshot changes the result of
    [validateForm] at that field only: the field's entry becomes the
    message of the new value, or goes away when the new value is valid. *)
Theorem validateForm_insert (formData : gmap (list N) (list N)) name value :
  validateForm (<[name := value]> formData)
  = match validateField name value with
    | Invalid msg => <[name := msg]> (validateForm formData)
    | Valid => delete name (validateForm formData)
    end.
Proof.
  apply map_eq. intros k. rewrite validateForm_lookup, lookup_insert.
  destruct (decide (name = k)) as [->|Hne].
  - destruct (validateField k value).
    + by rewrite lookup_delete_eq.
    + by rewrite lookup_insert_eq.
  - destruct (validateField name value).
    + by rewrite lookup_delete_ne, validateForm_lookup.
    + by rewrite lookup_insert_ne, validateForm_lookup.
Qed.

(** X18: trimming every value of the snapshot beforehand does not change
    the result of [validateForm]. *)
Theorem validateForm_trim (formData : gmap (list N) (list N)) :
  validateForm (trim <$> formData) = validateForm formData.
Proof.
  apply map_eq. intros k. rewrite !validateForm_lookup, lookup_fmap.
  destruct (formData !! k) as [value|]; [|done]. simpl.
  by rewrite validateField_trim_idem.
Qed.

(** The entries of the error object, in order, hold what [validateForm]
    returns. *)
Lemma validateForm_entries_to_map (entries : list (list N * list N)) :
  NoDup entries.*1 →
  (list_to_map (validateForm_entries entries) : gmap (list N) (list N))
  = validateForm (list_to_map entries).
Proof.
  intros Hnodup. apply map_eq. intros k. rewrite validateForm_lookup.
  induction entries as [|[name value] entries IH]; [done|].
  apply NoDup_cons in Hnodup as [Hfresh Hnodup]. specialize (IH Hnodup).
  rewrite list_to_map_cons, lookup_insert.
  unfold validateForm_entries in *. cbn [omap list_omap].
  destruct (decide (name = k)) as [->|Hne].
  - destruct (validateField k value) as [|msg].
    + rewrite IH. by rewrite (not_elem_of_list_to_map_1 _ _ Hfresh).
    + cbn. by rewrite lookup_insert_eq.
  - destruct (validateField name value) as [|msg]; [done|].
    cbn. by rewrite lookup_insert_ne.
Qed.

(** The snapshot holds, for each name of the rule table, the value the
    form reports, or the empty string. *)
Lemma snapshot_lookup_rule form name rules :
  VALIDATION_RULES !! name = Some rules →
  snapshot form !! name = Some (default [] (form_data form !! name)).
Proof.
  intros Hown. rewrite <- or_empty_default.
  pose proof js_name_ne_email. pose proof js_name_ne_message.
  pose proof js_email_ne_message.
  unfold snapshot. rewrite !list_to_map_cons, list_to_map_nil.
  apply VALIDATION_RULES_lookup_Some in Hown
    as [[-> _]|[[-> _]|[-> _]]].
  - by rewrite lookup_insert_eq.
  - rewrite lookup_insert_ne by done. by rewrite lookup_insert_eq.
  - rewrite !lookup_insert_ne by done. by rewrite lookup_insert_eq.
Qed.

(** The two courses of [handleSubmit]. *)
Lemma handleSubmit_with_errors form lucky :
  validateForm (snapshot form) ≠ ∅ →
  handleSubmit form lucky
  = [PreventDefault; ClearAllErrors]
    ++ (if existingMessage form then [RemoveMessage] else [])
    ++ [DisplayErrors (validateForm (snapshot form))].
Proof.
  intros Herrors. unfold handleSubmit. cbv zeta.
  destruct (0 <? length (Object_keys (validateForm (snapshot form))))
    eqn:Hkeys; [reflexivity|].
  apply Object_keys_empty in Hkeys. congruence.
Qed.

Lemma handleSubmit_without_errors form lucky :
  validateForm (snapshot form) = ∅ →
  handleSubmit form lucky
  = [PreventDefault; ClearAllErrors]
    ++ (if existingMessage form then [RemoveMessage] else [])
    ++ [SetLoadingState true; SimulateSubmission (snapshot form)]
    ++ match simulateSubmission lucky with
       | Resolved msg => [ShowFormMessage (js "success") msg; FormReset]
       | Rejected msg => [ShowFormMessage (js "error") msg]
       end
    ++ [SetLoadingState false].
Proof.
  intros Herrors. apply Object_keys_empty in Herrors.
  unfold handleSubmit. cbv zeta. rewrite Herrors. reflexivity.
Qed.

(** X19: when the value of a field of the rule table is missing from the
    form, empty, or white space only, [validateForm] reports the rule's
    [message] for it and [handleSubmit] does not call
    [simulateSubmission]. *)
Theorem handleSubmit_blank_field form lucky name rules :
  VALIDATION_RULES !! name = Some rules →
  Forall (fun c => is_space c = true) (default [] (form_data form !! name)) →
  validateForm (snapshot form) !! name = Some (message rules)
  ∧ ∀ formData, SimulateSubmission formData ∉ handleSubmit form lucky.
Proof.
  intros Hown Hblank.
  assert (validateForm (snapshot form) !! name = Some (message rules))
    as Hentry.
  { rewrite validateForm_lookup, (snapshot_lookup_rule _ _ _ Hown).
    apply trim_nil_iff in Hblank.
    by rewrite (validateField_trim_nil _ _ _ Hown Hblank). }
  split; [exact Hentry|]. intros formData.
  assert (validateForm (snapshot form) ≠ ∅) as Hsome.
  { intros Hnone. rewrite Hnone, lookup_empty in Hentry.
    discriminate Hentry. }
  rewrite (handleSubmit_with_errors _ _ Hsome).
  rewrite !elem_of_app, !elem_of_cons, elem_of_nil.
  destruct (existingMessage form);
    rewrite ?elem_of_cons, ?elem_of_nil; intuition congruence.
Qed.

Lemma handleSubmit_blank_field_witness :
  VALIDATION_RULES !! js "message" = Some message_rule
  ∧ Forall (fun c => is_space c = true)
      (default [] (form_data form_no_message !! js "message"))
  ∧ validateForm (snapshot form_no_message) !! js "message"
    = Some (message message_rule)
  ∧ ∀ formData,
      SimulateSubmission formData ∉ handleSubmit form_no_message true.
Proof.
  assert (Forall (fun c => is_space c = true)
            (default [] (form_data form_no_message !! js "message")))
    as Hblank by (vm_compute; constructor).
  split_and!; [reflexivity|exact Hblank|..];
    apply (handleSubmit_blank_field form_no_message true
             (js "message") message_rule);
    (reflexivity || exact Hblank).
Defined.

(** X20: whenever [handleSubmit] puts the submit button in the loading
    state, the last thing it does is to release it, whether the
    submission resolved or was rejected. *)
Theorem handleSubmit_releases_button form lucky :
  SetLoadingState true ∈ handleSubmit form lucky →
  last (handleSubmit form lucky) = Some (SetLoadingState false).
Proof.
  destruct (decide (validateForm (snapshot form) = ∅)) as [Hnone|Hsome].
  - intros _. rewrite (handleSubmit_without_errors _ _ Hnone).
    by rewrite !app_assoc, last_snoc.
  - rewrite (handleSubmit_with_errors _ _ Hsome).
    rewrite !elem_of_app, !elem_of_cons, elem_of_nil.
    destruct (existingMessage form);
      rewrite ?elem_of_cons, ?elem_of_nil; intuition congruence.
Qed.

Lemma handleSubmit_releases_button_witness :
  SetLoadingState true ∈ handleSubmit form_filled false
  ∧ last (handleSubmit form_filled false) = Some (SetLoadingState false).
Proof.
  assert (SetLoadingState true ∈ handleSubmit form_filled false) as Hin.
  { replace (handleSubmit form_filled false)
      with [ PreventDefault; ClearAllErrors; RemoveMessage;
             SetLoadingState true;
             SimulateSubmission (form_data form_filled);
             ShowFormMessage (js "error")
               (js "Submission failed. Please try again later.");
             SetLoadingState false ]
      by (vm_compute; reflexivity).
    do 3 right. left. }
  split; [exact Hin|].
  apply (handleSubmit_releases_button form_filled false). exact Hin.
Defined.

(** X21: [handleSubmit] resets the form exactly when validation found no
    error and the submission resolved. *)
Theorem handleSubmit_resets_iff form lucky :
  FormReset ∈ handleSubmit form lucky
  ↔ validateForm (snapshot form) = ∅ ∧ lucky = true.
Proof.
  destruct (decide (validateForm (snapshot form) = ∅)) as [Hnone|Hsome].
  - rewrite (handleSubmit_without_errors _ _ Hnone).
    rewrite !elem_of_app, !elem_of_cons, elem_of_nil.
    destruct (existingMessage form), lucky; cbn [simulateSubmission];
      rewrite ?elem_of_cons, ?elem_of_nil; intuition congruence.
  - rewrite (handleSubmit_with_errors _ _ Hsome).
    rewrite !elem_of_app, !elem_of_cons, elem_of_nil.
    destruct (existingMessage form);
      rewrite ?elem_of_cons, ?elem_of_nil; intuition congruence.
Qed.

(** ** Properties of the banner *)

(** X22: with at most one banner in the form, a success banner followed by
    a second banner leaves exactly the second one, and the auto-hide timer
    of the first, when it fires afterwards, removes nothing. *)
Theorem showFormMessage_stale_timer (m : Messages) (msg1 type2 msg2 : list N) :
  length (banners m) ≤ 1 →
  let first := showFormMessage m (js "success") msg1 in
  let second := showFormMessage first.1 type2 msg2 in
  first.2 = Some (next_node m)
  ∧ banners second.1
    = [ {| banner_node := S (next_node m);
           banner_type := type2;
           banner_text := msg2 |} ]
  ∧ banners (hide_message second.1 (next_node m)) = banners second.1.
Proof.
  intros Hlen. destruct m as [[|b [|b' bs]] n]; simpl in *; try lia.
  - split_and!; try done.
    rewrite filter_cons_True; [done|simpl; lia].
  - split_and!; try done.
    rewrite filter_cons_True; [done|simpl; lia].
Qed.

Lemma showFormMessage_stale_timer_witness :
  length (banners {| banners := []; next_node := 7 |}) ≤ 1
  ∧ let first :=
      showFormMessage {| banners := []; next_node := 7 |}
        (js "success") (js "Thank you") in
    let second := showFormMessage first.1 (js "error") (js "Failed") in
    first.2 = Some 7
    ∧ banners second.1
      = [ {| banner_node := 8;
             banner_type := js "error";
             banner_text := js "Failed" |} ]
    ∧ banners (hide_message second.1 7) = banners second.1.
Proof.
  split; [simpl; lia|].
  apply (showFormMessage_stale_timer {| banners := []; next_node := 7 |}
           (js "Thank you") (js "error") (js "Failed")).
  simpl. lia.
Defined.

(** ** Properties of the theme toggle *)

Lemma Theme_light_ne_dark : Theme.THEME_LIGHT ≠ Theme.THEME_DARK.
Proof. vm_compute. discriminate. Qed.

(** The theme [toggleTheme] switches to. *)
Lemma Theme_toggleTheme_data_theme (writable : bool) (d : Theme.Doc) :
  Theme.data_theme (Theme.toggleTheme writable d)
  = Some (if bool_decide
               (str_or (default [] (Theme.data_theme d)) Theme.THEME_LIGHT
                = Theme.THEME_LIGHT)
          then Theme.THEME_DARK else Theme.THEME_LIGHT).
Proof. unfold Theme.toggleTheme. by destruct writable. Qed.

(** X23: two calls of [toggleTheme] bring the [data-theme] attribute back
    to where it was, when it held [light] or [dark]. *)
Theorem Theme_toggleTheme_twice (w1 w2 : bool) (d : Theme.Doc) theme :
  Theme.data_theme d = Some theme →
  theme = Theme.THEME_LIGHT ∨ theme = Theme.THEME_DARK →
  Theme.data_theme (Theme.toggleTheme w2 (Theme.toggleTheme w1 d))
  = Theme.data_theme d.
Proof.
  intros Hd Htheme. rewrite !Theme_toggleTheme_data_theme, Hd.
  by destruct Htheme as [-> | ->].
Qed.

Lemma Theme_toggleTheme_twice_witness :
  let d := {| Theme.data_theme := Some Theme.THEME_DARK;
              Theme.meta_content := None;
              Theme.stored := None;
              Theme.announced := [] |} in
  Theme.data_theme d = Some Theme.THEME_DARK
  ∧ (Theme.THEME_DARK = Theme.THEME_LIGHT
     ∨ Theme.THEME_DARK = Theme.THEME_DARK)
  ∧ Theme.data_theme (Theme.toggleTheme false (Theme.toggleTheme true d))
    = Theme.data_theme d.
Proof.
  split_and!; [reflexivity|by right|].
  apply (Theme_toggleTheme_twice true false _ Theme.THEME_DARK);
    [reflexivity|by right].
Defined.

(** X24: after [toggleTheme] with a store that can be written,
    [getPreferredTheme] on the stored preference gives the theme now on
    the root element, whatever the system preference. *)
Theorem Theme_toggleTheme_persists (d : Theme.Doc) (media : option bool) :
  Some (Theme.getPreferredTheme (Theme.stored (Theme.toggleTheme true d))
          media)
  = Theme.data_theme (Theme.toggleTheme true d).
Proof.
  rewrite Theme_toggleTheme_data_theme.
  unfold Theme.toggleTheme, Theme.getPreferredTheme. cbn -[js].
  destruct (bool_decide (str_or _ _ = _));
    by rewrite bool_decide_eq_true_2 by auto.
Qed.

(** X25: when the store cannot be written, [toggleTheme] still switches
    the theme of the page and leaves the stored preference as it was. *)
Theorem Theme_toggleTheme_unwritable (d : Theme.Doc) :
  Theme.stored (Theme.toggleTheme false d) = Theme.stored d
  ∧ Theme.data_theme (Theme.toggleTheme false d)
    = Theme.data_theme (Theme.toggleTheme true d)
  ∧ Theme.data_theme (Theme.toggleTheme false d) ≠ Theme.data_theme d.
Proof.
  split_and!; [done|by rewrite !Theme_toggleTheme_data_theme|].
  rewrite Theme_toggleTheme_data_theme.
  pose proof Theme_light_ne_dark.
  destruct (Theme.data_theme d) as [[|c t]|]; [done| |done].
  change (default [] (Some (c :: t))) with (c :: t).
  rewrite str_or_id by done.
  case_bool_decide; congruence.
Qed.

(** ** Properties of the typing effect *)

Lemma Typing_phrase_length (i : nat) :
  i < length Typing.phrases → 0 < length (Typing.phrase i).
Proof.
  intros Hi. do 5 (destruct i as [|i]; [vm_compute; lia|]).
  simpl in Hi. lia.
Qed.

Lemma Typing_Inv_step (reduced : bool) (st : Typing.State) :
  Typing.Inv st → Typing.Inv (Typing.type reduced st).1.
Proof.
  intros (Hidx & Hpaused & Hdeleting & Htyping).
  pose proof (Typing_phrase_length _ Hidx) as Hlen.
  unfold Typing.type. destruct reduced; [done|]. cbv zeta.
  destruct (Typing.isPaused st) eqn:Hp.
  - destruct (Hpaused eq_refl) as [_ Hfull].
    unfold Typing.Inv.
    cbn [fst Typing.phraseIndex Typing.charIndex Typing.isDeleting
         Typing.isPaused].
    split_and!; [done|done|lia|done].
  - destruct (Typing.isDeleting st) eqn:Hd.
    + specialize (Hdeleting eq_refl).
      destruct (Z.eqb_spec (Typing.charIndex st - 1) 0) as [Hz|Hz];
        unfold Typing.Inv;
        cbn [fst Typing.phraseIndex Typing.charIndex Typing.isDeleting
             Typing.isPaused].
      * assert ((Typing.phraseIndex st + 1) mod length Typing.phrases
                < length Typing.phrases) as Hmod
          by (apply Nat.mod_upper_bound; discriminate).
        pose proof (Typing_phrase_length _ Hmod).
        split_and!; [done|done|done|lia].
      * split_and!; [done|done|lia|done].
    + specialize (Htyping eq_refl eq_refl).
      unfold Typing.Inv.
      cbn [fst Typing.phraseIndex Typing.charIndex Typing.isDeleting
           Typing.isPaused].
      split_and!; [done| |done|].
      * by intros Hfull%bool_decide_eq_true.
      * intros Hnot%bool_decide_eq_false _. lia.
Qed.

(** X26: between the calls of [type] the variables keep their relation:
    the phrase index is within the array, and the character index is
    within the current phrase (the whole phrase while paused, at least one
    character while deleting, short of the whole phrase while typing). *)
Theorem Typing_Inv_run (n : nat) : Typing.Inv (Typing.run n Typing.initial).
Proof.
  induction n as [|n IH].
  - vm_compute. split_and!; (done || lia).
  - exact (Typing_Inv_step false _ IH).
Qed.




(** X28: starting a phrase, [type] types it, pauses, deletes it and moves
    to the next phrase of the array, the first one after the last: after
    twice the length of the phrase plus one calls the variables are those
    of the start of the next phrase. *)
Theorem Typing_phrase_cycle (i : nat) :
  i < length Typing.phrases →
  Typing.run (2 * length (Typing.phrase i) + 1)
    {| Typing.phraseIndex := i; Typing.charIndex := 0;
       Typing.isDeleting := false; Typing.isPaused := false |}
  = {| Typing.phraseIndex := (i + 1) mod length Typing.phrases;
       Typing.charIndex := 0;
       Typing.isDeleting := false; Typing.isPaused := false |}.
Proof.
  intros Hi. do 5 (destruct i as [|i]; [vm_compute; reflexivity|]).
  simpl in Hi. lia.
Qed.

Lemma Typing_phrase_cycle_witness :
  4 < length Typing.phrases
  ∧ Typing.run (2 * length (Typing.phrase 4) + 1)
      {| Typing.phraseIndex := 4; Typing.charIndex := 0;
         Typing.isDeleting := false; Typing.isPaused := false |}
    = {| Typing.phraseIndex := (4 + 1) mod length Typing.phrases;
         Typing.charIndex := 0;
         Typing.isDeleting := false; Typing.isPaused := false |}.
Proof.
  assert (4 < length Typing.phrases) as Hi by (simpl; lia).
  split; [exact Hi|].
  apply (Typing_phrase_cycle 4). exact Hi.
Defined.
